(** * SPH fluid solver: particles, obstacles and the solver passes

    A shallow embedding of [src/sph/SPHParticle.js], [src/sph/Obstacle.js]
    and [src/sph/SPHSystem.js].

    Numbers.  The source computes with JavaScript numbers.  They are
    modelled by the real numbers [R]: every arithmetic expression is
    written as in the source, evaluated without rounding.  Infinities and
    NaN do not exist in the model.  The one place where a count, and not
    only a value, depends on the rounding is the number of grid cells of
    [initializeParticles], the floor of a rounded quotient: there the
    rounding of each arithmetic result to a double is a parameter [fl]
    of the model, of which nothing is assumed.

    Objects.  Particles are mutable objects shared between the solver's
    particle array and the neighbour records.  The array is a [list] used
    as a store, a reference to a particle is its index in that store, and
    a loop [for (const particle of this.particles)] is a left-to-right
    pass that writes each particle back at its index, so that later
    iterations read the values written by earlier ones. *)

From Stdlib Require Import Reals Lra Lia ZArith List String.
From stdpp Require Import base list.
Import ListNotations.
Local Open Scope R_scope.

(** ** JavaScript helpers *)

(** The comparisons [<], [>] and [===] of the source are decided on [R]. *)
#[global] Instance Rlt_decision (a b : R) : Decision (a < b) := Rlt_dec a b.
#[global] Instance Rgt_decision (a b : R) : Decision (a > b) := Rgt_dec a b.
#[global] Instance Req_decision : EqDecision R := Req_dec_T.

(** [v || d] on numbers: [0] is the only falsy real. *)
Definition js_or (v d : R) : R := if decide (v = 0) then d else v.

(** [o || d] where the property may be missing ([undefined]). *)
Definition js_or_default (o : option R) (d : R) : R :=
  match o with
  | Some v => js_or v d
  | None => d
  end.

(** [Math.min] of the six face distances. *)
Definition Math_min6 (a b c d e f : R) : R :=
  Rmin a (Rmin b (Rmin c (Rmin d (Rmin e f)))).

(** [for (let i = start; i < start + n && cond; i++) body], on a state
    [S]; [n] counts the iterations that remain. *)
Fixpoint for_lt {S : Type} (n : nat) (i : nat) (cond : S -> bool)
    (body : nat -> S -> S) (s : S) : S :=
  match n with
  | O => s
  | Datatypes.S n' =>
      if cond s then for_lt n' (Datatypes.S i) cond body (body i s) else s
  end.

(** Outcome of running a constructor: an object, or a thrown error. *)
Inductive completion (A : Type) : Type :=
  | Normal (a : A)
  | Throw (msg : string).
Arguments Normal {A} a.
Arguments Throw {A} msg.

(** ** THREE.Vector3

    The vector type of the three.js dependency, with the methods the
    solver calls, as three.js defines them.  A method that mutates its
    receiver returns the new value of the receiver; [clone] and [copy]
    are therefore the identity. *)
Module Vector3.

Record t : Type := mk { x : R; y : R; z : R }.

Definition zero : t := mk 0 0 0.

Definition add (a v : t) : t := mk (x a + x v) (y a + y v) (z a + z v).

Definition sub (a v : t) : t := mk (x a - x v) (y a - y v) (z a - z v).

Definition multiplyScalar (a : t) (s : R) : t :=
  mk (x a * s) (y a * s) (z a * s).

(** [divideScalar(s)] is [multiplyScalar(1 / s)]. *)
Definition divideScalar (a : t) (s : R) : t := multiplyScalar a (1 / s).

Definition dot (a v : t) : R := x a * x v + y a * y v + z a * z v.

Definition length (a : t) : R := sqrt (x a * x a + y a * y a + z a * z a).

(** [normalize()] is [divideScalar(length() || 1)]: the zero vector
    stays the zero vector. *)
Definition normalize (a : t) : t := divideScalar a (js_or (length a) 1).

Definition distanceToSquared (a v : t) : R :=
  let dx := x a - x v in
  let dy := y a - y v in
  let dz := z a - z v in
  dx * dx + dy * dy + dz * dz.

Definition distanceTo (a v : t) : R := sqrt (distanceToSquared a v).

Definition negate (a : t) : t := mk (- x a) (- y a) (- z a).

Definition set_x (a : t) (v : R) : t := mk v (y a) (z a).
Definition set_y (a : t) (v : R) : t := mk (x a) v (z a).
Definition set_z (a : t) (v : R) : t := mk (x a) (y a) v.

End Vector3.

(** [THREE.Box3], and the [{min, max}] region of [initializeParticles]. *)
Module Box3.
Record t : Type := mk { min : Vector3.t; max : Vector3.t }.
End Box3.

(** ** SPHParticle *)
Module SPHParticle.

(** One entry of [particle.neighbors]: [particle] is the reference to
    the other particle, as its index in the solver's array. *)
Record Neighbor : Type := mkNeighbor {
  particle : nat;
  distance : R;
  direction : Vector3.t
}.

Record t : Type := mk {
  position : Vector3.t;
  velocity : Vector3.t;
  acceleration : Vector3.t;
  force : Vector3.t;
  mass : R;
  density : R;
  pressure : R;
  neighbors : list Neighbor
}.

Definition set_position (p : t) (v : Vector3.t) : t :=
  mk v (velocity p) (acceleration p) (force p) (mass p) (density p)
     (pressure p) (neighbors p).
Definition set_velocity (p : t) (v : Vector3.t) : t :=
  mk (position p) v (acceleration p) (force p) (mass p) (density p)
     (pressure p) (neighbors p).
Definition set_acceleration (p : t) (v : Vector3.t) : t :=
  mk (position p) (velocity p) v (force p) (mass p) (density p)
     (pressure p) (neighbors p).
Definition set_force (p : t) (v : Vector3.t) : t :=
  mk (position p) (velocity p) (acceleration p) v (mass p) (density p)
     (pressure p) (neighbors p).
Definition set_density (p : t) (d : R) : t :=
  mk (position p) (velocity p) (acceleration p) (force p) (mass p) d
     (pressure p) (neighbors p).
Definition set_pressure (p : t) (d : R) : t :=
  mk (position p) (velocity p) (acceleration p) (force p) (mass p)
     (density p) d (neighbors p).
Definition set_neighbors (p : t) (l : list Neighbor) : t :=
  mk (position p) (velocity p) (acceleration p) (force p) (mass p)
     (density p) (pressure p) l.

(** [new SPHParticle(position, mass)] *)
Definition new (position : Vector3.t) (mass : R) : t :=
  mk position Vector3.zero Vector3.zero Vector3.zero mass 0 0 [].

Definition resetForce (p : t) : t := set_force p Vector3.zero.

Definition addForce (p : t) (f : Vector3.t) : t :=
  set_force p (Vector3.add (force p) f).

(** [update(dt)]: semi-implicit Euler; the mesh is not modelled. *)
Definition update (p : t) (dt : R) : t :=
  let p := set_acceleration p (Vector3.divideScalar (force p) (mass p)) in
  let p := set_velocity p
    (Vector3.add (velocity p) (Vector3.multiplyScalar (acceleration p) dt)) in
  set_position p
    (Vector3.add (position p) (Vector3.multiplyScalar (velocity p) dt)).

End SPHParticle.

(** ** Obstacles *)
Module SphereObstacle.

Record t : Type := mk { position : Vector3.t; radius : R }.

Definition handleCollision (this : t) (particle : SPHParticle.t)
    (damping : R) : SPHParticle.t :=
  let distance :=
    Vector3.distanceTo (SPHParticle.position particle) (position this) in
  let minDistance := radius this + 0.05 in
  if decide (distance < minDistance) then
    let normal := Vector3.normalize
      (Vector3.sub (SPHParticle.position particle) (position this)) in
    let particle := SPHParticle.set_position particle
      (Vector3.add (position this)
         (Vector3.multiplyScalar normal minDistance)) in
    let velocityAlongNormal :=
      Vector3.dot (SPHParticle.velocity particle) normal in
    if decide (velocityAlongNormal < 0) then
      let reflection :=
        Vector3.multiplyScalar normal (2 * velocityAlongNormal) in
      SPHParticle.set_velocity particle
        (Vector3.multiplyScalar
           (Vector3.sub (SPHParticle.velocity particle) reflection) damping)
    else particle
  else particle.

End SphereObstacle.

Module BoxObstacle.

Record t : Type := mk {
  position : Vector3.t;
  size : Vector3.t;
  min : Vector3.t;
  max : Vector3.t
}.

(** [new BoxObstacle(position, size)] *)
Definition new (position size : Vector3.t) : t :=
  mk position size
    (Vector3.sub position (Vector3.multiplyScalar size 0.5))
    (Vector3.add position (Vector3.multiplyScalar size 0.5)).

(** The test of the outer [if]: strictly inside on the three axes. *)
Definition inside (this : t) (p : Vector3.t) : bool :=
  bool_decide (Vector3.x p > Vector3.x (min this)) &&
  bool_decide (Vector3.x p < Vector3.x (max this)) &&
  bool_decide (Vector3.y p > Vector3.y (min this)) &&
  bool_decide (Vector3.y p < Vector3.y (max this)) &&
  bool_decide (Vector3.z p > Vector3.z (min this)) &&
  bool_decide (Vector3.z p < Vector3.z (max this)).

(** [BoxObstacle.handleCollision]: the chain of [===] tests selects the
    first face, in the order -x, +x, -y, +y, -z, +z, whose distance is
    the minimum; it sets [normal] and snaps one coordinate. *)
Definition handleCollision (this : t) (particle : SPHParticle.t)
    (damping : R) : SPHParticle.t :=
  let pos := SPHParticle.position particle in
  if inside this pos then
    let distToMinX := Vector3.x pos - Vector3.x (min this) in
    let distToMaxX := Vector3.x (max this) - Vector3.x pos in
    let distToMinY := Vector3.y pos - Vector3.y (min this) in
    let distToMaxY := Vector3.y (max this) - Vector3.y pos in
    let distToMinZ := Vector3.z pos - Vector3.z (min this) in
    let distToMaxZ := Vector3.z (max this) - Vector3.z pos in
    let minDist := Math_min6 distToMinX distToMaxX distToMinY distToMaxY
                     distToMinZ distToMaxZ in
    let '(normal, particle) :=
      if decide (minDist = distToMinX) then
        (Vector3.mk (-1) 0 0,
         SPHParticle.set_position particle
           (Vector3.set_x pos (Vector3.x (min this))))
      else if decide (minDist = distToMaxX) then
        (Vector3.mk 1 0 0,
         SPHParticle.set_position particle
           (Vector3.set_x pos (Vector3.x (max this))))
      else if decide (minDist = distToMinY) then
        (Vector3.mk 0 (-1) 0,
         SPHParticle.set_position particle
           (Vector3.set_y pos (Vector3.y (min this))))
      else if decide (minDist = distToMaxY) then
        (Vector3.mk 0 1 0,
         SPHParticle.set_position particle
           (Vector3.set_y pos (Vector3.y (max this))))
      else if decide (minDist = distToMinZ) then
        (Vector3.mk 0 0 (-1),
         SPHParticle.set_position particle
           (Vector3.set_z pos (Vector3.z (min this))))
      else if decide (minDist = distToMaxZ) then
        (Vector3.mk 0 0 1,
         SPHParticle.set_position particle
           (Vector3.set_z pos (Vector3.z (max this))))
      else (Vector3.zero, particle) in
    let velocityAlongNormal :=
      Vector3.dot (SPHParticle.velocity particle) normal in
    if decide (velocityAlongNormal < 0) then
      let reflection :=
        Vector3.multiplyScalar normal (2 * velocityAlongNormal) in
      SPHParticle.set_velocity particle
        (Vector3.multiplyScalar
           (Vector3.sub (SPHParticle.velocity particle) reflection) damping)
    else particle
  else particle.

End BoxObstacle.

(** The obstacle classes as one variant; the base class does nothing. *)
Module Obstacle.

Inductive t : Type :=
  | Base
  | Sphere (s : SphereObstacle.t)
  | Box (b : BoxObstacle.t).

Definition handleCollision (this : t) (particle : SPHParticle.t)
    (damping : R) : SPHParticle.t :=
  match this with
  | Base => particle
  | Sphere s => SphereObstacle.handleCollision s particle damping
  | Box b => BoxObstacle.handleCollision b particle damping
  end.

End Obstacle.

(** ** Passes over the particle array *)

(** [for (const particle of this.particles) { ... }] where the body
    mutates [particle]: iteration [i] reads the particle now stored at
    [i], runs the body against the current store and writes it back. *)
Definition iteration
    (body : list SPHParticle.t -> nat -> SPHParticle.t -> SPHParticle.t)
    (st : list SPHParticle.t) (i : nat) : list SPHParticle.t :=
  match st !! i with
  | Some particle => <[i := body st i particle]> st
  | None => st
  end.

Definition forEachParticle
    (body : list SPHParticle.t -> nat -> SPHParticle.t -> SPHParticle.t)
    (store : list SPHParticle.t) : list SPHParticle.t :=
  fold_left (iteration body) (seq 0 (length store)) store.

(** ** SPHSystem *)
Module SPHSystem.

(** The [params] object of the constructor; a missing property is
    [None]. *)
Record Params : Type := mkParams {
  p_particleMass : option R;
  p_restDensity : option R;
  p_gasConstant : option R;
  p_smoothingRadius : option R;
  p_viscosity : option R;
  p_timeStep : option R;
  p_gravity : option Vector3.t;
  p_boundingBox : option Box3.t;
  p_surfaceTension : option R;
  p_surfaceThreshold : option R
}.

(** [{}] *)
Definition noParams : Params :=
  mkParams None None None None None None None None None None.

Record t : Type := mk {
  particleMass : R;
  restDensity : R;
  gasConstant : R;
  h : R;
  h2 : R;
  viscosity : R;
  dt : R;
  gravity : Vector3.t;
  boundingBox : Box3.t;
  surfaceTension : R;
  surfaceThreshold : R;
  particles : list SPHParticle.t;
  obstacles : list Obstacle.t;
  poly6Constant : R;
  spikyGradConstant : R;
  viscosityLaplaceConstant : R
}.

Definition set_particles (this : t) (ps : list SPHParticle.t) : t :=
  mk (particleMass this) (restDensity this) (gasConstant this) (h this)
     (h2 this) (viscosity this) (dt this) (gravity this) (boundingBox this)
     (surfaceTension this) (surfaceThreshold this) ps (obstacles this)
     (poly6Constant this) (spikyGradConstant this)
     (viscosityLaplaceConstant this).

Definition set_obstacles (this : t) (os : list Obstacle.t) : t :=
  mk (particleMass this) (restDensity this) (gasConstant this) (h this)
     (h2 this) (viscosity this) (dt this) (gravity this) (boundingBox this)
     (surfaceTension this) (surfaceThreshold this) (particles this) os
     (poly6Constant this) (spikyGradConstant this)
     (viscosityLaplaceConstant this).

(** The body of the constructor.  [Math.pow(h, n)] is [h ^ n] and
    [Math.PI] is [PI]; an object-valued option is truthy when present. *)
Definition init (params : Params) : t :=
  let particleMass := js_or_default (p_particleMass params) 1.0 in
  let restDensity := js_or_default (p_restDensity params) 1000.0 in
  let gasConstant := js_or_default (p_gasConstant params) 2000.0 in
  let h := js_or_default (p_smoothingRadius params) 0.16 in
  let h2 := h * h in
  let viscosity := js_or_default (p_viscosity params) 0.018 in
  let dt := js_or_default (p_timeStep params) 0.004 in
  let gravity := default (Vector3.mk 0 (-9.8) 0) (p_gravity params) in
  let boundingBox :=
    default (Box3.mk (Vector3.mk (-1) (-1) (-1)) (Vector3.mk 1 1 1))
            (p_boundingBox params) in
  let surfaceTension := js_or_default (p_surfaceTension params) 0.0728 in
  let surfaceThreshold := js_or_default (p_surfaceThreshold params) 7.065 in
  mk particleMass restDensity gasConstant h h2 viscosity dt gravity
     boundingBox surfaceTension surfaceThreshold [] []
     (315.0 / (64.0 * PI * h ^ 9))
     (-45.0 / (PI * h ^ 6))
     (45.0 / (PI * h ^ 6)).

(** [new SPHSystem(params)]: the constructor has no [throw] and calls
    nothing that throws, so it always completes normally. *)
Definition new (params : Params) : completion t := Normal (init params).

Definition addParticle (this : t) (position : Vector3.t)
    : t * SPHParticle.t :=
  let particle := SPHParticle.new position (particleMass this) in
  (set_particles this (particles this ++ [particle]), particle).

Definition addObstacle (this : t) (obstacle : Obstacle.t) : t :=
  set_obstacles this (obstacles this ++ [obstacle]).

(** [initializeParticles(count, region)].  [count] is a particle count,
    a natural number; the loop state is the solver and [created].

    [fl] is the rounding of an exact result to a double: every
    arithmetic operation of the method returns [fl] of its exact
    result, as the [-], [*], [/] and [+] of the source do.  [Math.floor]
    of a double is exact.  The number of cells per axis is thus the
    floor of the rounded quotient, which can be one less, or one more,
    than the floor of the exact quotient. *)
Definition initializeParticles (fl : R -> R) (this : t) (count : nat)
    (region : Box3.t) : t :=
  let min := Box3.min region in
  let max := Box3.max region in
  let spacing := fl (h this * 0.5) in
  let nx := Zfloor (fl (fl (Vector3.x max - Vector3.x min) / spacing)) in
  let ny := Zfloor (fl (fl (Vector3.y max - Vector3.y min) / spacing)) in
  let nz := Zfloor (fl (fl (Vector3.z max - Vector3.z min) / spacing)) in
  let more := fun s : t * nat => (snd s <? count)%nat in
  fst
    (for_lt (Z.to_nat nx) 0 more (fun i =>
       for_lt (Z.to_nat ny) 0 more (fun j =>
         for_lt (Z.to_nat nz) 0 more (fun k s =>
           let x := fl (Vector3.x min + fl (INR i * spacing)) in
           let y := fl (Vector3.y min + fl (INR j * spacing)) in
           let z := fl (Vector3.z min + fl (INR k * spacing)) in
           let position := Vector3.mk x y z in
           (fst (addParticle (fst s) position), S (snd s)))))
       (this, O)).

Definition poly6Kernel (this : t) (r h : R) : R :=
  if decide (r > h) then 0
  else
    let term := h * h - r * r in
    poly6Constant this * term * term * term.

Definition spikyGradKernel (this : t) (r h : R) (dir : Vector3.t)
    : Vector3.t :=
  if decide (r > h \/ r < 0.0001) then Vector3.mk 0 0 0
  else
    let term := h - r in
    let scale := spikyGradConstant this * term * term / r in
    Vector3.multiplyScalar dir scale.

Definition viscosityLaplaceKernel (this : t) (r h : R) : R :=
  if decide (r > h) then 0
  else viscosityLaplaceConstant this * (h - r).

(** [findNeighbors()]: the inner scan of all particles for one
    [particle], stored at index [i].  [particle === other] compares
    references, that is, indices. *)
Definition scanNeighbors (this : t) (st : list SPHParticle.t) (i : nat)
    (particle : SPHParticle.t) : list SPHParticle.Neighbor :=
  fold_left
    (fun neighbors (entry : nat * SPHParticle.t) =>
       let (j, other) := entry in
       if decide (i = j) then neighbors
       else
         let dist := Vector3.distanceTo (SPHParticle.position particle)
                       (SPHParticle.position other) in
         if decide (dist < h this) then
           neighbors ++
             [SPHParticle.mkNeighbor j dist
                (Vector3.normalize
                   (Vector3.sub (SPHParticle.position other)
                      (SPHParticle.position particle)))]
         else neighbors)
    (imap pair st) [].

Definition findNeighbors (this : t) : t :=
  set_particles this
    (forEachParticle
       (fun st i particle =>
          SPHParticle.set_neighbors particle
            (scanNeighbors this st i particle))
       (particles this)).

(** [computeDensityPressure()] for one particle.  [neighbor.particle]
    is read from the store; an index outside the store has no
    counterpart in the source and contributes nothing. *)
Definition densityPressureOf (this : t) (st : list SPHParticle.t)
    (particle : SPHParticle.t) : SPHParticle.t :=
  let density0 := poly6Kernel this 0 (h this) * SPHParticle.mass particle in
  let density :=
    fold_left
      (fun density neighbor =>
         match st !! SPHParticle.particle neighbor with
         | Some other =>
             density + SPHParticle.mass other *
               poly6Kernel this (SPHParticle.distance neighbor) (h this)
         | None => density
         end)
      (SPHParticle.neighbors particle) density0 in
  let particle := SPHParticle.set_density particle density in
  SPHParticle.set_pressure particle
    (gasConstant this * (SPHParticle.density particle - restDensity this)).

Definition computeDensityPressure (this : t) : t :=
  set_particles this
    (forEachParticle (fun st _ particle => densityPressureOf this st particle)
       (particles this)).

(** The four accumulators of the neighbour loop of [computeForces]. *)
Record Accumulators : Type := mkAcc {
  pressureForce : Vector3.t;
  viscosityForce : Vector3.t;
  surfaceNormal : Vector3.t;
  colorFieldLaplacian : R
}.

(** One iteration of [for (const neighbor of particle.neighbors)] in
    [computeForces]. *)
Definition accumulate (this : t) (st : list SPHParticle.t)
    (particle : SPHParticle.t) (acc : Accumulators)
    (neighbor : SPHParticle.Neighbor) : Accumulators :=
  match st !! SPHParticle.particle neighbor with
  | Some other =>
      let dir := SPHParticle.direction neighbor in
      let dist := SPHParticle.distance neighbor in
      let pressureGrad := spikyGradKernel this dist (h this) dir in
      let pressureTerm :=
        (SPHParticle.pressure particle + SPHParticle.pressure other) /
        (2.0 * SPHParticle.density other) in
      let pressureForce :=
        Vector3.add (pressureForce acc)
          (Vector3.multiplyScalar pressureGrad
             (- SPHParticle.mass other * pressureTerm)) in
      let relativeVelocity :=
        Vector3.sub (SPHParticle.velocity other)
          (SPHParticle.velocity particle) in
      let viscosityTerm :=
        viscosityLaplaceKernel this dist (h this) /
        SPHParticle.density other in
      let viscosityForce :=
        Vector3.add (viscosityForce acc)
          (Vector3.multiplyScalar relativeVelocity
             (SPHParticle.mass other * viscosityTerm)) in
      let colorGrad :=
        Vector3.multiplyScalar (spikyGradKernel this dist (h this) dir)
          (SPHParticle.mass other / SPHParticle.density other) in
      let surfaceNormal := Vector3.add (surfaceNormal acc) colorGrad in
      let colorFieldLaplacian :=
        colorFieldLaplacian acc +
        SPHParticle.mass other / SPHParticle.density other *
          viscosityLaplaceKernel this dist (h this) in
      mkAcc pressureForce viscosityForce surfaceNormal colorFieldLaplacian
  | None => acc
  end.

(** The neighbour loop of [computeForces], from zero accumulators. *)
Definition neighborForces (this : t) (st : list SPHParticle.t)
    (particle : SPHParticle.t) : Accumulators :=
  fold_left (accumulate this st particle) (SPHParticle.neighbors particle)
    (mkAcc (Vector3.mk 0 0 0) (Vector3.mk 0 0 0) (Vector3.mk 0 0 0) 0).

(** [computeForces()] for one particle. *)
Definition forcesOf (this : t) (st : list SPHParticle.t)
    (particle : SPHParticle.t) : SPHParticle.t :=
  let particle := SPHParticle.resetForce particle in
  let gravity :=
    Vector3.multiplyScalar (gravity this) (SPHParticle.mass particle) in
  let particle := SPHParticle.addForce particle gravity in
  let acc := neighborForces this st particle in
  let particle := SPHParticle.addForce particle (pressureForce acc) in
  let viscosityForce :=
    Vector3.multiplyScalar (viscosityForce acc)
      (viscosity this * SPHParticle.mass particle) in
  let particle := SPHParticle.addForce particle viscosityForce in
  let surfaceNormalLength := Vector3.length (surfaceNormal acc) in
  if decide (surfaceNormalLength > surfaceThreshold this) then
    let surfaceForce :=
      Vector3.multiplyScalar (Vector3.normalize (surfaceNormal acc))
        (- surfaceTension this * colorFieldLaplacian acc) in
    SPHParticle.addForce particle surfaceForce
  else particle.

Definition computeForces (this : t) : t :=
  set_particles this
    (forEachParticle (fun st _ particle => forcesOf this st particle)
       (particles this)).

(** The bounding-box part of [handleCollisions] for one particle: the
    three axes in turn, each an [if / else if]. *)
Definition collideWalls (this : t) (damping : R)
    (particle : SPHParticle.t) : SPHParticle.t :=
  let min := Box3.min (boundingBox this) in
  let max := Box3.max (boundingBox this) in
  let particle :=
    if decide (Vector3.x (SPHParticle.position particle) < Vector3.x min) then
      let particle := SPHParticle.set_position particle
        (Vector3.set_x (SPHParticle.position particle) (Vector3.x min)) in
      SPHParticle.set_velocity particle
        (Vector3.set_x (SPHParticle.velocity particle)
           (Vector3.x (SPHParticle.velocity particle) * - damping))
    else if decide (Vector3.x (SPHParticle.position particle) > Vector3.x max) then
      let particle := SPHParticle.set_position particle
        (Vector3.set_x (SPHParticle.position particle) (Vector3.x max)) in
      SPHParticle.set_velocity particle
        (Vector3.set_x (SPHParticle.velocity particle)
           (Vector3.x (SPHParticle.velocity particle) * - damping))
    else particle in
  let particle :=
    if decide (Vector3.y (SPHParticle.position particle) < Vector3.y min) then
      let particle := SPHParticle.set_position particle
        (Vector3.set_y (SPHParticle.position particle) (Vector3.y min)) in
      SPHParticle.set_velocity particle
        (Vector3.set_y (SPHParticle.velocity particle)
           (Vector3.y (SPHParticle.velocity particle) * - damping))
    else if decide (Vector3.y (SPHParticle.position particle) > Vector3.y max) then
      let particle := SPHParticle.set_position particle
        (Vector3.set_y (SPHParticle.position particle) (Vector3.y max)) in
      SPHParticle.set_velocity particle
        (Vector3.set_y (SPHParticle.velocity particle)
           (Vector3.y (SPHParticle.velocity particle) * - damping))
    else particle in
  let particle :=
    if decide (Vector3.z (SPHParticle.position particle) < Vector3.z min) then
      let particle := SPHParticle.set_position particle
        (Vector3.set_z (SPHParticle.position particle) (Vector3.z min)) in
      SPHParticle.set_velocity particle
        (Vector3.set_z (SPHParticle.velocity particle)
           (Vector3.z (SPHParticle.velocity particle) * - damping))
    else if decide (Vector3.z (SPHParticle.position particle) > Vector3.z max) then
      let particle := SPHParticle.set_position particle
        (Vector3.set_z (SPHParticle.position particle) (Vector3.z max)) in
      SPHParticle.set_velocity particle
        (Vector3.set_z (SPHParticle.velocity particle)
           (Vector3.z (SPHParticle.velocity particle) * - damping))
    else particle in
  particle.

(** [handleCollisions()]: walls, then every obstacle in list order. *)
Definition handleCollisions (this : t) : t :=
  let damping := 0.5 in
  set_particles this
    (forEachParticle
       (fun _ _ particle =>
          fold_left
            (fun particle obstacle =>
               Obstacle.handleCollision obstacle particle damping)
            (obstacles this) (collideWalls this damping particle))
       (particles this)).

(** [update()]: one simulation step. *)
Definition update (this : t) : t :=
  let this := findNeighbors this in
  let this := computeDensityPressure this in
  let this := computeForces this in
  let this :=
    set_particles this
      (forEachParticle
         (fun _ _ particle => SPHParticle.update particle (dt this))
         (particles this)) in
  handleCollisions this.

End SPHSystem.

(** ** Vocabulary of the statements *)

(** The faces of a box, in the order the collision code tests them. *)
Inductive Face : Type := MinX | MaxX | MinY | MaxY | MinZ | MaxZ.

Inductive Axis : Type := AxisX | AxisY | AxisZ.

Definition coord (a : Axis) (v : Vector3.t) : R :=
  match a with
  | AxisX => Vector3.x v
  | AxisY => Vector3.y v
  | AxisZ => Vector3.z v
  end.

Definition faceAxis (f : Face) : Axis :=
  match f with
  | MinX | MaxX => AxisX
  | MinY | MaxY => AxisY
  | MinZ | MaxZ => AxisZ
  end.

(** The coordinate of the plane of face [f] of box [b]. *)
Definition faceCoord (b : BoxObstacle.t) (f : Face) : R :=
  match f with
  | MinX | MinY | MinZ => coord (faceAxis f) (BoxObstacle.min b)
  | MaxX | MaxY | MaxZ => coord (faceAxis f) (BoxObstacle.max b)
  end.

(** Distance from an inner point to face [f]. *)
Definition faceDistance (b : BoxObstacle.t) (pos : Vector3.t) (f : Face) : R :=
  match f with
  | MinX | MinY | MinZ => coord (faceAxis f) pos - faceCoord b f
  | MaxX | MaxY | MaxZ => faceCoord b f - coord (faceAxis f) pos
  end.

(** Outward unit normal of face [f]. *)
Definition faceNormal (f : Face) : Vector3.t :=
  match f with
  | MinX => Vector3.mk (-1) 0 0
  | MaxX => Vector3.mk 1 0 0
  | MinY => Vector3.mk 0 (-1) 0
  | MaxY => Vector3.mk 0 1 0
  | MinZ => Vector3.mk 0 0 (-1)
  | MaxZ => Vector3.mk 0 0 1
  end.

(** A configuration names a non-positive smoothing radius or mass. *)
Definition nonPositiveConfig (params : SPHSystem.Params) : Prop :=
  (exists v, SPHSystem.p_smoothingRadius params = Some v /\ v <= 0) \/
  (exists v, SPHSystem.p_particleMass params = Some v /\ v <= 0).

(** Construction fails. *)
Definition rejected (params : SPHSystem.Params) : Prop :=
  exists msg, SPHSystem.new params = Throw msg.

(** [{ smoothingRadius: -1 }] *)
Definition negativeRadiusParams : SPHSystem.Params :=
  SPHSystem.mkParams None None None (Some (-1)) None None None None None None.

(** The sphere obstacle of the application: centre [(0,0,0)], radius
    [0.3]; and a fresh particle at that centre. *)
Definition sphereAtOrigin : SphereObstacle.t :=
  SphereObstacle.mk (Vector3.mk 0 0 0) 0.3.

Definition particleAtOrigin : SPHParticle.t :=
  SPHParticle.new (Vector3.mk 0 0 0) 1.

(** A default solver holding one fresh particle just outside the [+x]
    wall of its bounding box [[-1,1]^3]. *)
Definition solverWithParticleBeyondWall : SPHSystem.t :=
  fst (SPHSystem.addParticle (SPHSystem.init SPHSystem.noParams)
         (Vector3.mk (1 + 0.01) 0 0)).

(** [new SPHParticle(position, 1.0)] *)
Definition particleAt (position : Vector3.t) : SPHParticle.t :=
  SPHParticle.new position 1.0.

(** A default solver ([h = 0.16], mass [1.0]) with two particles added
    at [(0,0,0)] and [(0.1,0,0)]. *)
Definition twoParticleSolver : SPHSystem.t :=
  fst (SPHSystem.addParticle
         (fst (SPHSystem.addParticle (SPHSystem.init SPHSystem.noParams)
                 (Vector3.mk 0 0 0)))
         (Vector3.mk 0.1 0 0)).

(** What the force pass reads of the other particles. *)
Definition forceView (p : SPHParticle.t) : R * R * R * Vector3.t :=
  (SPHParticle.pressure p, SPHParticle.density p, SPHParticle.mass p,
   SPHParticle.velocity p).

(** The kernel constants are the ones the constructor derives from [h]. *)
Definition kernelConstants (this : SPHSystem.t) : Prop :=
  SPHSystem.poly6Constant this = 315.0 / (64.0 * PI * SPHSystem.h this ^ 9) /\
  SPHSystem.spikyGradConstant this = -45.0 / (PI * SPHSystem.h this ^ 6) /\
  SPHSystem.viscosityLaplaceConstant this = 45.0 / (PI * SPHSystem.h this ^ 6).

(** What one iteration of the scan of [findNeighbors] pushes: the entry
    for the particle [other] stored at [j], seen from the particle
    stored at [i], or nothing. *)
Definition neighborEntry (this : SPHSystem.t) (i : nat)
    (particle : SPHParticle.t) (entry : nat * SPHParticle.t)
    : option SPHParticle.Neighbor :=
  let dist := Vector3.distanceTo (SPHParticle.position particle)
                (SPHParticle.position entry.2) in
  if decide (i <> entry.1 /\ dist < SPHSystem.h this) then
    Some (SPHParticle.mkNeighbor entry.1 dist
            (Vector3.normalize
               (Vector3.sub (SPHParticle.position entry.2)
                  (SPHParticle.position particle))))
  else None.

(** [A]'s neighbour list has an entry that refers to particle [j]. *)
Definition lists (A : SPHParticle.t) (j : nat) : Prop :=
  exists n, n ∈ SPHParticle.neighbors A /\ SPHParticle.particle n = j.

(** The grid positions of [initializeParticles], x outermost and z
    innermost, for [nx], [ny], [nz] cells: the point of indices
    [(i, j, k)] is [min + (i, j, k) * spacing], each product and each
    sum rounded by [fl]. *)
Definition gridPositions (fl : R -> R) (min : Vector3.t) (spacing : R)
    (nx ny nz : nat) : list Vector3.t :=
  flat_map (fun i =>
    flat_map (fun j =>
      List.map (fun k =>
        Vector3.mk (fl (Vector3.x min + fl (INR i * spacing)))
                   (fl (Vector3.y min + fl (INR j * spacing)))
                   (fl (Vector3.z min + fl (INR k * spacing))))
        (seq 0 nz))
      (seq 0 ny))
    (seq 0 nx).

(** Arithmetic without rounding. *)
Definition exact (x : R) : R := x.

(** [addParticle] for each position of a list, in order. *)
Definition addParticles (this : SPHSystem.t) (positions : list Vector3.t)
    : SPHSystem.t :=
  fold_left (fun s position => fst (SPHSystem.addParticle s position))
    positions this.

(** A loop body of [initializeParticles] which, entered with fewer than
    [count] particles created, adds the first [count - created]
    positions of [G i] and counts them. *)
Definition fills (count : nat)
    (body : nat -> SPHSystem.t * nat -> SPHSystem.t * nat)
    (G : nat -> list Vector3.t) : Prop :=
  forall i this created, (created < count)%nat ->
    body i (this, created) =
    (addParticles this (take (count - created) (G i)),
     (created + length (take (count - created) (G i)))%nat).

(** The default solver. *)
Definition defaultSolver : SPHSystem.t := SPHSystem.init SPHSystem.noParams.

(** The solver built from [{ smoothingRadius: 0.5 }] and the region
    [[0, 0.5]^3]: the spacing is [0.25] and every axis has two cells.
    All the numbers that occur are dyadic, so the doubles compute them
    without rounding. *)
Definition coarseSolver : SPHSystem.t :=
  SPHSystem.init
    (SPHSystem.mkParams None None None (Some 0.5) None None None None None
       None).

Definition smallRegion : Box3.t :=
  Box3.mk (Vector3.mk 0 0 0) (Vector3.mk 0.5 0.5 0.5).

(** Cells per axis: [floor((max - min) / spacing)] as the source
    computes it, the difference and the quotient each rounded by [fl];
    none when negative. *)
Definition gridCells (fl : R -> R) (lo hi spacing : R) : nat :=
  Z.to_nat (Zfloor (fl (fl (hi - lo) / spacing))).

(** ** Vocabulary of the further statements *)

(** The velocity response shared by the two obstacle classes: when the
    velocity has a negative component along [normal], reflect that
    component and scale the whole velocity by [damping]. *)
Definition reflectVelocity (normal : Vector3.t) (damping : R)
    (particle : SPHParticle.t) : SPHParticle.t :=
  let velocityAlongNormal :=
    Vector3.dot (SPHParticle.velocity particle) normal in
  if decide (velocityAlongNormal < 0) then
    SPHParticle.set_velocity particle
      (Vector3.multiplyScalar
         (Vector3.sub (SPHParticle.velocity particle)
            (Vector3.multiplyScalar normal (2 * velocityAlongNormal)))
         damping)
  else particle.

(** Rank of a face in the order of the [===] chain. *)
Definition faceIndex (f : Face) : nat :=
  match f with
  | MinX => 0 | MaxX => 1 | MinY => 2 | MaxY => 3 | MinZ => 4 | MaxZ => 5
  end.

(** [pos] with the coordinate on the axis of [f] put on the plane of [f]. *)
Definition snapToFace (b : BoxObstacle.t) (pos : Vector3.t) (f : Face)
    : Vector3.t :=
  match faceAxis f with
  | AxisX => Vector3.set_x pos (faceCoord b f)
  | AxisY => Vector3.set_y pos (faceCoord b f)
  | AxisZ => Vector3.set_z pos (faceCoord b f)
  end.

(** The bounding box is not inverted on any axis. *)
Definition boxOrdered (b : Box3.t) : Prop :=
  forall a : Axis, coord a (Box3.min b) <= coord a (Box3.max b).

(** [p] lies in the closed box [b]. *)
Definition withinBox (b : Box3.t) (p : Vector3.t) : Prop :=
  forall a : Axis, coord a (Box3.min b) <= coord a p <= coord a (Box3.max b).

(** A particle at [(0.1, 0, 0)] moving towards the origin. *)
Definition particleOffCentre : SPHParticle.t :=
  SPHParticle.set_velocity (SPHParticle.new (Vector3.mk 0.1 0 0) 1)
    (Vector3.mk (-1) 0 0).

(** [new BoxObstacle((0,0,0), (2,2,2))]: the cube [[-1,1]^3]. *)
Definition unitCube : BoxObstacle.t :=
  BoxObstacle.new (Vector3.mk 0 0 0) (Vector3.mk 2 2 2).

(** A solver built from [{ smoothingRadius: -1 }] with two particles
    added at [(0,0,0)] and [(0.1,0,0)]. *)
Definition negativeRadiusSolver : SPHSystem.t :=
  fst (SPHSystem.addParticle
         (fst (SPHSystem.addParticle (SPHSystem.init negativeRadiusParams)
                 (Vector3.mk 0 0 0)))
         (Vector3.mk 0.1 0 0)).

(** No other particle of the store is closer than [h] to the particle
    [p] stored at [i]. *)
Definition isolated (this : SPHSystem.t) (i : nat) (p : SPHParticle.t)
    : Prop :=
  forall j other,
    SPHSystem.particles this !! j = Some other -> j <> i ->
    ~ Vector3.distanceTo (SPHParticle.position p) (SPHParticle.position other)
      < SPHSystem.h this.

(** The first three passes of a step. *)
Definition forcePasses (this : SPHSystem.t) : SPHSystem.t :=
  SPHSystem.computeForces
    (SPHSystem.computeDensityPressure (SPHSystem.findNeighbors this)).

(** A default solver with two particles farther apart than [h]. *)
Definition farApartSolver : SPHSystem.t :=
  fst (SPHSystem.addParticle
         (fst (SPHSystem.addParticle (SPHSystem.init SPHSystem.noParams)
                 (Vector3.mk 0 0 0)))
         (Vector3.mk 0.5 0 0)).

(** ** Kernels *)

Section Kernels.
Variable this : SPHSystem.t.

Lemma spikyGradKernel_nonzero (r h : R) (dir : Vector3.t) :
  SPHSystem.spikyGradKernel this r h dir <> Vector3.zero ->
  0.0001 <= r <= h.
Proof.
  unfold SPHSystem.spikyGradKernel. case_decide as Hc.
  - intros Hne. now destruct Hne.
  - intros _. split; [apply Rnot_lt_le | apply Rnot_gt_le]; tauto.
Qed.

Lemma spikyGradKernel_negate (r h : R) (dir : Vector3.t) :
  SPHSystem.spikyGradKernel this r h (Vector3.negate dir) =
  Vector3.negate (SPHSystem.spikyGradKernel this r h dir).
Proof.
  unfold SPHSystem.spikyGradKernel. case_decide.
  - unfold Vector3.negate; simpl. f_equal; ring.
  - unfold Vector3.negate, Vector3.multiplyScalar; simpl. f_equal; ring.
Qed.

End Kernels.

(** C6.  Outside the support radius the three kernels vanish: for
    [r > h], [poly6Kernel] is [0], [spikyGradKernel] is the zero vector
    and [viscosityLaplaceKernel] is [0]; and at the boundary
    [poly6Kernel(h, h)] is [0]. *)
Theorem kernel_support (this : SPHSystem.t) (r h : R) (dir : Vector3.t) :
  r > h ->
  SPHSystem.poly6Kernel this r h = 0 /\
  SPHSystem.spikyGradKernel this r h dir = Vector3.mk 0 0 0 /\
  SPHSystem.viscosityLaplaceKernel this r h = 0 /\
  SPHSystem.poly6Kernel this h h = 0.
Proof.
  intros Hr.
  unfold SPHSystem.poly6Kernel, SPHSystem.spikyGradKernel,
    SPHSystem.viscosityLaplaceKernel.
  rewrite !(decide_True (P := r > h)) by assumption.
  rewrite (decide_True (P := r > h \/ r < 0.0001)) by (left; assumption).
  repeat split.
  rewrite (decide_False (P := h > h)) by lra.
  ring.
Qed.

Lemma kernel_support_witness :
  2 > 1 /\
  SPHSystem.poly6Kernel (SPHSystem.init SPHSystem.noParams) 2 1 = 0 /\
  SPHSystem.spikyGradKernel (SPHSystem.init SPHSystem.noParams) 2 1
    (Vector3.mk 1 0 0) = Vector3.mk 0 0 0 /\
  SPHSystem.viscosityLaplaceKernel (SPHSystem.init SPHSystem.noParams) 2 1 = 0 /\
  SPHSystem.poly6Kernel (SPHSystem.init SPHSystem.noParams) 1 1 = 0.
Proof.
  split; [lra | apply kernel_support; lra].
Defined.

(** C7.  For every [r < 1e-4], [r = 0] included, [spikyGradKernel]
    returns the zero vector: the branch that divides by [r] is not
    taken. *)
Theorem spikyGradKernel_guard (this : SPHSystem.t) (r h : R)
    (dir : Vector3.t) :
  r < 0.0001 ->
  SPHSystem.spikyGradKernel this r h dir = Vector3.mk 0 0 0.
Proof.
  intros Hr. unfold SPHSystem.spikyGradKernel.
  rewrite decide_True by (right; assumption). reflexivity.
Qed.

Lemma spikyGradKernel_guard_witness :
  0 < 0.0001 /\
  SPHSystem.spikyGradKernel (SPHSystem.init SPHSystem.noParams) 0 0.16
    (Vector3.mk 1 0 0) = Vector3.mk 0 0 0.
Proof.
  split; [lra | apply spikyGradKernel_guard; lra].
Defined.

(** ** Vectors *)

Lemma Vector3_distanceTo_sym (a b : Vector3.t) :
  Vector3.distanceTo a b = Vector3.distanceTo b a.
Proof.
  unfold Vector3.distanceTo, Vector3.distanceToSquared. cbv zeta.
  f_equal. ring.
Qed.

Lemma Vector3_distanceTo_length (a b : Vector3.t) :
  Vector3.distanceTo a b = Vector3.length (Vector3.sub b a).
Proof.
  unfold Vector3.distanceTo, Vector3.distanceToSquared, Vector3.length,
    Vector3.sub. cbv zeta. simpl. f_equal. ring.
Qed.

Lemma Vector3_distanceTo_nonneg (a b : Vector3.t) :
  0 <= Vector3.distanceTo a b.
Proof. unfold Vector3.distanceTo. apply sqrt_pos. Qed.

Lemma Vector3_length_sub_sym (a b : Vector3.t) :
  Vector3.length (Vector3.sub a b) = Vector3.length (Vector3.sub b a).
Proof.
  rewrite <- !Vector3_distanceTo_length. apply Vector3_distanceTo_sym.
Qed.

Lemma Vector3_normalize_sub_negate (a b : Vector3.t) :
  Vector3.normalize (Vector3.sub a b) =
  Vector3.negate (Vector3.normalize (Vector3.sub b a)).
Proof.
  unfold Vector3.normalize. rewrite (Vector3_length_sub_sym a b).
  unfold Vector3.divideScalar, Vector3.multiplyScalar, Vector3.negate,
    Vector3.sub. simpl. f_equal; ring.
Qed.

Lemma Vector3_sub_self (a : Vector3.t) : Vector3.sub a a = Vector3.zero.
Proof. unfold Vector3.sub, Vector3.zero. f_equal; ring. Qed.

Lemma Vector3_length_zero : Vector3.length Vector3.zero = 0.
Proof.
  unfold Vector3.length, Vector3.zero; simpl.
  replace (0 * 0 + 0 * 0 + 0 * 0) with 0 by ring. apply sqrt_0.
Qed.

Lemma Vector3_normalize_zero : Vector3.normalize Vector3.zero = Vector3.zero.
Proof.
  unfold Vector3.normalize, Vector3.divideScalar, Vector3.multiplyScalar.
  unfold Vector3.zero; simpl. f_equal; ring.
Qed.

Lemma Vector3_distanceTo_self (a : Vector3.t) : Vector3.distanceTo a a = 0.
Proof.
  unfold Vector3.distanceTo, Vector3.distanceToSquared. cbv zeta.
  replace ((Vector3.x a - Vector3.x a) * (Vector3.x a - Vector3.x a) +
           (Vector3.y a - Vector3.y a) * (Vector3.y a - Vector3.y a) +
           (Vector3.z a - Vector3.z a) * (Vector3.z a - Vector3.z a))
    with 0 by ring.
  apply sqrt_0.
Qed.

(** ** Obstacles *)

Lemma Math_min6_le (a b c d e f : R) :
  let m := Math_min6 a b c d e f in
  m <= a /\ m <= b /\ m <= c /\ m <= d /\ m <= e /\ m <= f.
Proof.
  unfold Math_min6, Rmin. cbv zeta.
  repeat (destruct (Rle_dec _ _)); repeat split; lra.
Qed.

Lemma Math_min6_cases (a b c d e f : R) :
  let m := Math_min6 a b c d e f in
  m = a \/ m = b \/ m = c \/ m = d \/ m = e \/ m = f.
Proof.
  unfold Math_min6, Rmin. cbv zeta.
  repeat (destruct (Rle_dec _ _)); tauto.
Qed.

Lemma BoxObstacle_inside_spec (this : BoxObstacle.t) (p : Vector3.t) :
  BoxObstacle.inside this p = true <->
  (forall a : Axis,
     coord a (BoxObstacle.min this) < coord a p < coord a (BoxObstacle.max this)).
Proof.
  unfold BoxObstacle.inside.
  rewrite !andb_true_iff, !bool_decide_eq_true. split.
  - intros H a. destruct a; simpl; lra.
  - intros H. pose proof (H AxisX). pose proof (H AxisY). pose proof (H AxisZ).
    simpl in *. repeat split; lra.
Qed.

(** C10.  Frame of [BoxObstacle.handleCollision].  For a particle
    strictly inside the box, a nearest face [f] is selected; the
    position coordinate on the axis of [f] is set to the plane of [f]
    (and so changes), the two other coordinates keep their values, and
    the velocity is kept unless its component along the normal of [f] is
    negative.  For a particle that is not strictly inside, the particle
    is returned as it was. *)
Theorem BoxObstacle_handleCollision_frame (this : BoxObstacle.t)
    (particle : SPHParticle.t) (damping : R) :
  let particle' := BoxObstacle.handleCollision this particle damping in
  let pos := SPHParticle.position particle in
  let pos' := SPHParticle.position particle' in
  if BoxObstacle.inside this pos then
    exists f : Face,
      (forall g, faceDistance this pos f <= faceDistance this pos g) /\
      coord (faceAxis f) pos' = faceCoord this f /\
      coord (faceAxis f) pos' <> coord (faceAxis f) pos /\
      (forall a, a <> faceAxis f -> coord a pos' = coord a pos) /\
      (~ Vector3.dot (SPHParticle.velocity particle) (faceNormal f) < 0 ->
       SPHParticle.velocity particle' = SPHParticle.velocity particle)
  else particle' = particle.
Proof.
  cbv zeta. unfold BoxObstacle.handleCollision.
  destruct (BoxObstacle.inside this (SPHParticle.position particle)) eqn:Hin;
    [| reflexivity].
  pose proof (proj1 (BoxObstacle_inside_spec _ _) Hin) as Hin'.
  clear Hin; rename Hin' into Hin.
  pose proof (Hin AxisX) as HX. pose proof (Hin AxisY) as HY.
  pose proof (Hin AxisZ) as HZ. simpl in HX, HY, HZ.
  set (pos := SPHParticle.position particle) in *.
  match goal with |- context [Math_min6 ?a ?b ?c ?d ?e ?f] =>
    pose proof (Math_min6_le a b c d e f) as Hle;
    pose proof (Math_min6_cases a b c d e f) as Hcases;
    set (m := Math_min6 a b c d e f) in *
  end.
  cbv zeta in Hle, Hcases.
  destruct Hle as (L1 & L2 & L3 & L4 & L5 & L6).
  assert (Hsel : forall f : Face,
    m = faceDistance this pos f ->
    forall particle1,
      SPHParticle.velocity particle1 = SPHParticle.velocity particle ->
      coord (faceAxis f) (SPHParticle.position particle1) = faceCoord this f ->
      (forall a, a <> faceAxis f ->
         coord a (SPHParticle.position particle1) = coord a pos) ->
      let van := Vector3.dot (SPHParticle.velocity particle1) (faceNormal f) in
      let r := (if decide (van < 0)
                then SPHParticle.set_velocity particle1
                       (Vector3.multiplyScalar
                          (Vector3.sub (SPHParticle.velocity particle1)
                             (Vector3.multiplyScalar (faceNormal f) (2 * van)))
                          damping)
                else particle1) in
      exists f0 : Face,
        (forall g, faceDistance this pos f0 <= faceDistance this pos g) /\
        coord (faceAxis f0) (SPHParticle.position r) = faceCoord this f0 /\
        coord (faceAxis f0) (SPHParticle.position r) <> coord (faceAxis f0) pos /\
        (forall a, a <> faceAxis f0 ->
           coord a (SPHParticle.position r) = coord a pos) /\
        (~ Vector3.dot (SPHParticle.velocity particle) (faceNormal f0) < 0 ->
         SPHParticle.velocity r = SPHParticle.velocity particle)).
  { intros f Hm p1 Hv Hc Ho. cbv zeta. exists f.
    assert (Hpos : SPHParticle.position
              (if decide (Vector3.dot (SPHParticle.velocity p1) (faceNormal f) < 0)
               then SPHParticle.set_velocity p1
                      (Vector3.multiplyScalar
                         (Vector3.sub (SPHParticle.velocity p1)
                            (Vector3.multiplyScalar (faceNormal f)
                               (2 * Vector3.dot (SPHParticle.velocity p1)
                                      (faceNormal f)))) damping)
               else p1) = SPHParticle.position p1)
      by (case_decide; reflexivity).
    rewrite Hpos. split; [| split; [exact Hc | split; [| split; [exact Ho |]]]].
    - intros g. rewrite <- Hm. destruct g; simpl; assumption.
    - rewrite Hc. destruct f; simpl; lra.
    - intros Hn. rewrite Hv. rewrite decide_False by assumption. exact Hv. }
  destruct (decide (m = _)) as [Hm | Hm1];
    [ apply (Hsel MinX); [assumption | reflexivity | reflexivity |];
      intros a Ha; destruct a; simpl in *; congruence |].
  destruct (decide (m = _)) as [Hm | Hm2];
    [ apply (Hsel MaxX); [assumption | reflexivity | reflexivity |];
      intros a Ha; destruct a; simpl in *; congruence |].
  destruct (decide (m = _)) as [Hm | Hm3];
    [ apply (Hsel MinY); [assumption | reflexivity | reflexivity |];
      intros a Ha; destruct a; simpl in *; congruence |].
  destruct (decide (m = _)) as [Hm | Hm4];
    [ apply (Hsel MaxY); [assumption | reflexivity | reflexivity |];
      intros a Ha; destruct a; simpl in *; congruence |].
  destruct (decide (m = _)) as [Hm | Hm5];
    [ apply (Hsel MinZ); [assumption | reflexivity | reflexivity |];
      intros a Ha; destruct a; simpl in *; congruence |].
  destruct (decide (m = _)) as [Hm | Hm6];
    [ apply (Hsel MaxZ); [assumption | reflexivity | reflexivity |];
      intros a Ha; destruct a; simpl in *; congruence |].
  exfalso. tauto.
Qed.

(** A box of size [2] at the origin and a particle at [(0.5, 0, 0)]
    moving in the [-x] direction: the [+x] face is nearest, the particle
    is put on it and its velocity is reflected and halved. *)
Example BoxObstacle_handleCollision_example :
  let box := BoxObstacle.new (Vector3.mk 0 0 0) (Vector3.mk 2 2 2) in
  let particle :=
    SPHParticle.set_velocity (SPHParticle.new (Vector3.mk 0.5 0 0) 1)
      (Vector3.mk (-1) 0 0) in
  let particle' := BoxObstacle.handleCollision box particle 0.5 in
  SPHParticle.position particle' = Vector3.mk 1 0 0 /\
  SPHParticle.velocity particle' = Vector3.mk 0.5 0 0.
Proof.
  cbv zeta. unfold BoxObstacle.handleCollision.
  replace (BoxObstacle.inside _ _) with true.
  2: { symmetry. apply BoxObstacle_inside_spec. intros a.
       destruct a; simpl; lra. }
  match goal with |- context [Math_min6 ?a ?b ?c ?d ?e ?f] =>
    pose proof (Math_min6_le a b c d e f) as Hle;
    pose proof (Math_min6_cases a b c d e f) as Hcases;
    set (m := Math_min6 a b c d e f) in *
  end.
  cbv zeta in Hle, Hcases. simpl in Hle, Hcases.
  assert (Hm : m = 0.5) by (destruct Hcases as [? | [? | [? | [? | [? | ?]]]]]; lra).
  clear Hle Hcases.
  destruct (decide (m = _)) as [Hm1 | _]; [exfalso; simpl in Hm1; lra |].
  destruct (decide (m = _)) as [_ | Hm2]; [| exfalso; simpl in Hm2; lra].
  cbv beta iota.
  rewrite decide_True by (unfold Vector3.dot; simpl; lra).
  split; unfold Vector3.multiplyScalar, Vector3.sub, Vector3.dot,
    Vector3.set_x; simpl; f_equal; lra.
Qed.

(** C2, as the code behaves.  A particle at the centre of a sphere
    obstacle is returned unchanged by [handleCollision]: the collision
    normal is the normalised zero vector, which is the zero vector, so
    the particle is moved by nothing and stays at the centre, at distance
    [0] and not at [radius + 0.05]; its velocity is kept and its
    component along that normal is [0]. *)
Theorem SphereObstacle_center_not_pushed (this : SphereObstacle.t)
    (particle : SPHParticle.t) (damping : R) :
  SPHParticle.position particle = SphereObstacle.position this ->
  SphereObstacle.radius this > 0 ->
  let particle' := SphereObstacle.handleCollision this particle damping in
  let normal := Vector3.normalize
    (Vector3.sub (SPHParticle.position particle)
       (SphereObstacle.position this)) in
  particle' = particle /\
  Vector3.distanceTo (SPHParticle.position particle')
    (SphereObstacle.position this) = 0 /\
  Vector3.distanceTo (SPHParticle.position particle')
    (SphereObstacle.position this) <> SphereObstacle.radius this + 0.05 /\
  Vector3.dot (SPHParticle.velocity particle') normal = 0.
Proof.
  intros Hpos Hr. cbv zeta.
  assert (Hsame : SphereObstacle.handleCollision this particle damping
                  = particle).
  { unfold SphereObstacle.handleCollision. cbv zeta.
    rewrite Hpos, Vector3_distanceTo_self, Vector3_sub_self,
      Vector3_normalize_zero.
    rewrite decide_True by lra.
    assert (Hd : Vector3.dot
              (SPHParticle.velocity
                 (SPHParticle.set_position particle
                    (Vector3.add (SphereObstacle.position this)
                       (Vector3.multiplyScalar Vector3.zero
                          (SphereObstacle.radius this + 0.05)))))
              Vector3.zero = 0)
      by (unfold Vector3.dot; simpl; ring).
    rewrite Hd. rewrite decide_False by lra.
    destruct particle as [pos v a f m d pr ns]; simpl in *. subst pos.
    unfold SPHParticle.set_position; simpl. f_equal.
    destruct (SphereObstacle.position this) as [cx cy cz].
    unfold Vector3.add, Vector3.multiplyScalar; simpl. f_equal; ring. }
  rewrite Hsame, Hpos, Vector3_distanceTo_self, Vector3_sub_self,
    Vector3_normalize_zero.
  repeat split; [lra |].
  unfold Vector3.dot; simpl; ring.
Qed.

Lemma SphereObstacle_center_not_pushed_witness :
  SphereObstacle.handleCollision sphereAtOrigin particleAtOrigin 0.5 =
    particleAtOrigin /\
  Vector3.distanceTo
    (SPHParticle.position
       (SphereObstacle.handleCollision sphereAtOrigin particleAtOrigin 0.5))
    (SphereObstacle.position sphereAtOrigin) = 0 /\
  Vector3.distanceTo
    (SPHParticle.position
       (SphereObstacle.handleCollision sphereAtOrigin particleAtOrigin 0.5))
    (SphereObstacle.position sphereAtOrigin) <>
  SphereObstacle.radius sphereAtOrigin + 0.05 /\
  Vector3.dot
    (SPHParticle.velocity
       (SphereObstacle.handleCollision sphereAtOrigin particleAtOrigin 0.5))
    (Vector3.normalize
       (Vector3.sub (SPHParticle.position particleAtOrigin)
          (SphereObstacle.position sphereAtOrigin))) = 0.
Proof.
  apply (SphereObstacle_center_not_pushed sphereAtOrigin particleAtOrigin 0.5);
    [reflexivity | simpl; lra].
Defined.

(** Away from the centre the push-out does what it is written for: a
    particle inside the contact radius, not at the centre, ends at
    distance [radius + 0.05] from the centre.  This is the value in
    exact arithmetic; the doubles reach it up to rounding, on either
    side of it. *)
Lemma SphereObstacle_pushes_off_center (this : SphereObstacle.t)
    (particle : SPHParticle.t) (damping : R) :
  let distance := Vector3.distanceTo (SPHParticle.position particle)
                    (SphereObstacle.position this) in
  0 < distance < SphereObstacle.radius this + 0.05 ->
  Vector3.distanceTo
    (SPHParticle.position
       (SphereObstacle.handleCollision this particle damping))
    (SphereObstacle.position this) = SphereObstacle.radius this + 0.05.
Proof.
  cbv zeta. intros [Hpos Hlt].
  unfold SphereObstacle.handleCollision. cbv zeta.
  rewrite decide_True by assumption.
  set (md := SphereObstacle.radius this + 0.05) in *.
  set (c := SphereObstacle.position this) in *.
  set (p := SPHParticle.position particle) in *.
  assert (Hposition : forall q : SPHParticle.t,
    SPHParticle.position
      (if decide (Vector3.dot (SPHParticle.velocity q)
                    (Vector3.normalize (Vector3.sub p c)) < 0)
       then SPHParticle.set_velocity q
              (Vector3.multiplyScalar
                 (Vector3.sub (SPHParticle.velocity q)
                    (Vector3.multiplyScalar
                       (Vector3.normalize (Vector3.sub p c))
                       (2 * Vector3.dot (SPHParticle.velocity q)
                              (Vector3.normalize (Vector3.sub p c)))))
                 damping)
       else q) = SPHParticle.position q) by (intros q; case_decide; reflexivity).
  rewrite Hposition. cbn [SPHParticle.position SPHParticle.set_position].
  rewrite Vector3_distanceTo_length, Vector3_length_sub_sym in Hpos.
  assert (Hmd : 0 < md)
    by (rewrite Vector3_distanceTo_length, Vector3_length_sub_sym in Hlt; lra).
  unfold Vector3.normalize, js_or.
  set (L := Vector3.length (Vector3.sub p c)) in *.
  rewrite decide_False by lra.
  assert (HL : L * L =
    (Vector3.x p - Vector3.x c) * (Vector3.x p - Vector3.x c) +
    (Vector3.y p - Vector3.y c) * (Vector3.y p - Vector3.y c) +
    (Vector3.z p - Vector3.z c) * (Vector3.z p - Vector3.z c)).
  { unfold L, Vector3.length, Vector3.sub. simpl. apply sqrt_sqrt.
    pose proof (Rle_0_sqr (Vector3.x p - Vector3.x c)) as Hx.
    pose proof (Rle_0_sqr (Vector3.y p - Vector3.y c)) as Hy.
    pose proof (Rle_0_sqr (Vector3.z p - Vector3.z c)) as Hz.
    unfold Rsqr in Hx, Hy, Hz. lra. }
  unfold Vector3.distanceTo, Vector3.distanceToSquared, Vector3.divideScalar,
    Vector3.multiplyScalar, Vector3.add, Vector3.sub. cbv zeta. simpl.
  match goal with |- sqrt ?e = _ =>
    replace e with (md * md *
      (((Vector3.x p - Vector3.x c) * (Vector3.x p - Vector3.x c) +
        (Vector3.y p - Vector3.y c) * (Vector3.y p - Vector3.y c) +
        (Vector3.z p - Vector3.z c) * (Vector3.z p - Vector3.z c)) / (L * L)))
      by (field; lra)
  end.
  rewrite <- HL. replace (md * md * (L * L / (L * L))) with (md * md)
    by (field; lra).
  apply sqrt_square. lra.
Qed.

(** ** Bounding-box walls *)

(** C8.  Wall reflection.  A single particle at
    [(max.x + 0.01, 0, 0)] in a solver without obstacles, whose bounding
    box has [min.x <= max.x]: after [handleCollisions] its [position.x]
    is [max.x]; if its [velocity.x] was [0] it is [0], and if it was [1]
    it is [-0.5]: [velocity.x] is multiplied by [-0.5]. *)
Theorem wall_reflection (this : SPHSystem.t) (particle : SPHParticle.t) :
  SPHSystem.particles this = [particle] ->
  SPHSystem.obstacles this = [] ->
  Vector3.x (Box3.min (SPHSystem.boundingBox this)) <=
    Vector3.x (Box3.max (SPHSystem.boundingBox this)) ->
  SPHParticle.position particle =
    Vector3.mk (Vector3.x (Box3.max (SPHSystem.boundingBox this)) + 0.01) 0 0 ->
  exists particle',
    SPHSystem.particles (SPHSystem.handleCollisions this) = [particle'] /\
    Vector3.x (SPHParticle.position particle') =
      Vector3.x (Box3.max (SPHSystem.boundingBox this)) /\
    Vector3.x (SPHParticle.velocity particle') =
      Vector3.x (SPHParticle.velocity particle) * - 0.5 /\
    (SPHParticle.velocity particle = Vector3.mk 0 0 0 ->
     Vector3.x (SPHParticle.velocity particle') = 0) /\
    (Vector3.x (SPHParticle.velocity particle) = 1 ->
     Vector3.x (SPHParticle.velocity particle') = -0.5).
Proof.
  intros Hps Hobs Hbox Hpos.
  unfold SPHSystem.handleCollisions. rewrite Hps, Hobs.
  unfold forEachParticle. simpl.
  eexists. split; [reflexivity |].
  unfold SPHSystem.collideWalls. cbv zeta.
  rewrite Hpos. simpl.
  rewrite (decide_False (P := _ + 0.01 < _)) by lra.
  rewrite (decide_True (P := _ + 0.01 > _)) by lra.
  simpl.
  repeat case_decide; simpl; (split; [reflexivity |]);
    (split; [lra |]);
    (split; [intros Hv; rewrite Hv; simpl; lra | intros Hv; rewrite Hv; lra]).
Qed.

Lemma wall_reflection_witness :
  exists particle',
    SPHSystem.particles
      (SPHSystem.handleCollisions solverWithParticleBeyondWall) = [particle'] /\
    Vector3.x (SPHParticle.position particle') = 1 /\
    Vector3.x (SPHParticle.velocity particle') = 0 * - 0.5 /\
    (Vector3.mk 0 0 0 = Vector3.mk 0 0 0 ->
     Vector3.x (SPHParticle.velocity particle') = 0) /\
    (0 = 1 -> Vector3.x (SPHParticle.velocity particle') = -0.5).
Proof.
  apply (wall_reflection solverWithParticleBeyondWall
           (SPHParticle.new (Vector3.mk (1 + 0.01) 0 0) 1.0));
    [reflexivity | reflexivity | simpl; lra | reflexivity].
Defined.

(** ** Construction *)

Lemma pow9_negative (h : R) : h < 0 -> h ^ 9 < 0.
Proof.
  intros Hh. assert (H : 0 < (- h) ^ 9) by (apply pow_lt; lra).
  replace ((- h) ^ 9) with (- h ^ 9) in H by ring. lra.
Qed.

Lemma poly6Constant_negative (h : R) :
  h < 0 -> 315.0 / (64.0 * PI * h ^ 9) < 0.
Proof.
  intros Hh. pose proof (pow9_negative h Hh) as H9. pose proof PI_RGT_0 as Hpi.
  assert (Hden : 64.0 * PI * h ^ 9 < 0) by nra.
  pose proof (Rinv_lt_0_compat _ Hden) as Hinv.
  unfold Rdiv. nra.
Qed.

Lemma js_or_nonzero (v d : R) : d <> 0 -> js_or v d <> 0.
Proof. intros Hd. unfold js_or. case_decide; assumption. Qed.

Lemma js_or_default_nonzero (o : option R) (d : R) :
  d <> 0 -> js_or_default o d <> 0.
Proof. intros Hd. destruct o; simpl; [apply js_or_nonzero |]; assumption. Qed.

(** The constructor derives the kernel constants from [h], and the
    passes, which only replace the particle array, keep them. *)
Lemma kernelConstants_init (params : SPHSystem.Params) :
  kernelConstants (SPHSystem.init params).
Proof. repeat split. Qed.

Lemma kernelConstants_set_particles (this : SPHSystem.t)
    (ps : list SPHParticle.t) :
  kernelConstants this -> kernelConstants (SPHSystem.set_particles this ps).
Proof. intros H. exact H. Qed.

(** C3 fails on the code: the configuration [{ smoothingRadius: -1 }]
    is non-positive, and construction completes with a solver whose
    smoothing radius is [-1] and whose poly6 constant is negative. *)
Lemma constructor_accepts_negative_radius :
  nonPositiveConfig negativeRadiusParams /\
  ~ rejected negativeRadiusParams /\
  exists this,
    SPHSystem.new negativeRadiusParams = Normal this /\
    SPHSystem.h this = -1 /\
    SPHSystem.poly6Constant this < 0.
Proof.
  split; [| split].
  - left. exists (-1). split; [reflexivity | lra].
  - intros [msg Hmsg]. discriminate Hmsg.
  - exists (SPHSystem.init negativeRadiusParams).
    split; [reflexivity |].
    assert (Hh : SPHSystem.h (SPHSystem.init negativeRadiusParams) = -1).
    { simpl. unfold js_or. rewrite decide_False by lra. reflexivity. }
    split; [exact Hh |].
    change (SPHSystem.poly6Constant (SPHSystem.init negativeRadiusParams))
      with (315.0 / (64.0 * PI *
              SPHSystem.h (SPHSystem.init negativeRadiusParams) ^ 9)).
    apply poly6Constant_negative. rewrite Hh. lra.
Qed.

(** C3, amended.  Construction never fails.  A [smoothingRadius] or
    [particleMass] of zero is replaced by its default ([0.16], [1.0]),
    so the solver never has a zero radius or mass; a negative value is
    taken as it is, and a negative radius gives a negative poly6
    constant. *)
Theorem constructor_total (params : SPHSystem.Params) :
  exists this,
    SPHSystem.new params = Normal this /\
    SPHSystem.h this <> 0 /\
    SPHSystem.particleMass this <> 0 /\
    (SPHSystem.p_smoothingRadius params = Some 0 -> SPHSystem.h this = 0.16) /\
    (SPHSystem.p_particleMass params = Some 0 ->
     SPHSystem.particleMass this = 1.0) /\
    (forall v, SPHSystem.p_smoothingRadius params = Some v -> v < 0 ->
       SPHSystem.h this = v /\ SPHSystem.poly6Constant this < 0) /\
    (forall v, SPHSystem.p_particleMass params = Some v -> v < 0 ->
       SPHSystem.particleMass this = v).
Proof.
  exists (SPHSystem.init params). split; [reflexivity |].
  destruct params as [pm rd gc sr vi ts gr bb st sth]; simpl.
  repeat split.
  - apply js_or_default_nonzero; lra.
  - apply js_or_default_nonzero; lra.
  - intros ->. simpl. unfold js_or. rewrite decide_True by reflexivity.
    reflexivity.
  - intros ->. simpl. unfold js_or. rewrite decide_True by reflexivity.
    reflexivity.
  - subst sr. simpl. unfold js_or. rewrite decide_False by lra. reflexivity.
  - subst sr. simpl. unfold js_or. rewrite decide_False by lra.
    apply poly6Constant_negative; assumption.
  - intros v -> Hv. simpl. unfold js_or. rewrite decide_False by lra.
    reflexivity.
Qed.

(** ** Passes over the particle store *)

Section ForEachParticle.
Context {V : Type} (view : SPHParticle.t -> V).
Variable body :
  list SPHParticle.t -> nat -> SPHParticle.t -> SPHParticle.t.

(** The body reads the store only through [view], and does not change
    the [view] of the particle it writes. *)
Hypothesis body_reads : forall st st' i p,
  view <$> st = view <$> st' -> body st i p = body st' i p.
Hypothesis body_keeps : forall st i p, view (body st i p) = view p.

Lemma forEachParticle_prefix (ps : list SPHParticle.t) (k : nat) :
  (k <= length ps)%nat ->
  view <$> fold_left (iteration body) (seq 0 k) ps = view <$> ps /\
  forall i, fold_left (iteration body) (seq 0 k) ps !! i =
            if decide (i < k)%nat then body ps i <$> ps !! i else ps !! i.
Proof.
  induction k as [| k IH]; intros Hk.
  - split; [reflexivity |]. intros i.
    destruct (decide (i < 0)%nat); [lia | reflexivity].
  - destruct IH as [IHv IHl]; [lia |].
    rewrite seq_S, fold_left_app. cbn [fold_left Nat.add].
    set (st := fold_left (iteration body) (seq 0 k) ps) in *.
    destruct (lookup_lt_is_Some_2 ps k) as [p Hp]; [lia |].
    assert (Hst : st !! k = Some p).
    { rewrite IHl, decide_False by lia. exact Hp. }
    assert (Hstep : iteration body st k = <[k := body ps k p]> st).
    { unfold iteration. rewrite Hst, (body_reads st ps k p IHv). reflexivity. }
    rewrite Hstep. clear Hstep.
    split.
    + rewrite list_fmap_insert, body_keeps, IHv.
      apply list_insert_id. rewrite list_lookup_fmap, Hp. reflexivity.
    + intros i. rewrite list_lookup_insert.
      assert (Hlen : length st = length ps).
      { rewrite <- (length_fmap view st), IHv, length_fmap. reflexivity. }
      destruct (decide (k = i)) as [<- | Hne].
      * rewrite decide_True by (split; [reflexivity | lia]).
        rewrite decide_True by lia. rewrite Hp. reflexivity.
      * rewrite decide_False by tauto. rewrite IHl.
        destruct (decide (i < k)%nat).
        -- rewrite decide_True by lia. reflexivity.
        -- rewrite decide_False by lia. reflexivity.
Qed.

(** After the pass, every particle is the body applied to the particle
    and the store as they were before the pass. *)
Lemma forEachParticle_lookup (ps : list SPHParticle.t) (i : nat) :
  forEachParticle body ps !! i = body ps i <$> ps !! i.
Proof.
  unfold forEachParticle.
  destruct (forEachParticle_prefix ps (length ps)) as [_ Hl]; [lia |].
  rewrite Hl.
  destruct (decide (i < length ps)%nat) as [Hi | Hi]; [reflexivity |].
  rewrite lookup_ge_None_2 by lia. reflexivity.
Qed.

Lemma forEachParticle_length (ps : list SPHParticle.t) :
  length (forEachParticle body ps) = length ps.
Proof.
  unfold forEachParticle.
  destruct (forEachParticle_prefix ps (length ps)) as [Hv _]; [lia |].
  rewrite <- (length_fmap view), Hv, length_fmap. reflexivity.
Qed.

Lemma forEachParticle_view (ps : list SPHParticle.t) :
  view <$> forEachParticle body ps = view <$> ps.
Proof.
  unfold forEachParticle.
  destruct (forEachParticle_prefix ps (length ps)) as [Hv _]; [lia |].
  exact Hv.
Qed.

End ForEachParticle.

(** ** Neighbour search *)

Section FindNeighbors.
Variable this : SPHSystem.t.

(** The scan pushes, in store order, the entries of the particles
    other than [i] that are closer than [h]. *)
Lemma scanNeighbors_omap (st : list SPHParticle.t) (i : nat)
    (particle : SPHParticle.t) :
  SPHSystem.scanNeighbors this st i particle =
  omap (neighborEntry this i particle) (imap pair st).
Proof.
  unfold SPHSystem.scanNeighbors.
  match goal with |- fold_left ?F _ _ = _ => set (push := F) end.
  enough (Hfold : forall l acc,
            fold_left push l acc =
            acc ++ omap (neighborEntry this i particle) l)
    by apply (Hfold _ []).
  induction l as [| [j other] l IH]; intros acc.
  - simpl. rewrite app_nil_r. reflexivity.
  - cbn [fold_left]. rewrite IH. clear IH. unfold push.
    change (omap (neighborEntry this i particle) ((j, other) :: l))
      with (match neighborEntry this i particle (j, other) with
            | Some n => n :: omap (neighborEntry this i particle) l
            | None => omap (neighborEntry this i particle) l
            end).
    unfold neighborEntry. cbn [fst snd].
    destruct (decide (i = j)) as [Heq | Hne].
    + rewrite decide_False by tauto. reflexivity.
    + destruct (decide (Vector3.distanceTo (SPHParticle.position particle)
                          (SPHParticle.position other) < SPHSystem.h this)).
      * rewrite decide_True by tauto. rewrite <- app_assoc. reflexivity.
      * rewrite decide_False by tauto. reflexivity.
Qed.

Lemma elem_of_scanNeighbors (st : list SPHParticle.t) (i : nat)
    (particle : SPHParticle.t) (n : SPHParticle.Neighbor) :
  n ∈ SPHSystem.scanNeighbors this st i particle <->
  exists j other,
    st !! j = Some other /\ i <> j /\
    Vector3.distanceTo (SPHParticle.position particle)
      (SPHParticle.position other) < SPHSystem.h this /\
    n = SPHParticle.mkNeighbor j
          (Vector3.distanceTo (SPHParticle.position particle)
             (SPHParticle.position other))
          (Vector3.normalize
             (Vector3.sub (SPHParticle.position other)
                (SPHParticle.position particle))).
Proof.
  rewrite scanNeighbors_omap, list_elem_of_omap. split.
  - intros ([j other] & Hin & Hentry).
    apply elem_of_lookup_imap in Hin.
    destruct Hin as (j' & other' & Heq & Hlook). inversion Heq; subst j' other'.
    unfold neighborEntry in Hentry. cbn [fst snd] in Hentry.
    case_decide as Hc; [| discriminate].
    exists j, other. inversion Hentry. tauto.
  - intros (j & other & Hlook & Hne & Hd & ->).
    exists (j, other). split.
    + apply elem_of_lookup_imap. exists j, other. tauto.
    + unfold neighborEntry. cbn [fst snd].
      rewrite decide_True by tauto. reflexivity.
Qed.

Lemma scanNeighbors_reads (st st' : list SPHParticle.t) (i : nat)
    (particle : SPHParticle.t) :
  SPHParticle.position <$> st = SPHParticle.position <$> st' ->
  SPHSystem.scanNeighbors this st i particle =
  SPHSystem.scanNeighbors this st' i particle.
Proof.
  intros Hpos. rewrite !scanNeighbors_omap.
  apply list_omap_ext. apply Forall2_same_length_lookup_2.
  - rewrite !length_imap.
    rewrite <- (length_fmap SPHParticle.position st), Hpos, length_fmap.
    reflexivity.
  - intros j [j1 o1] [j2 o2] H1 H2.
    rewrite list_lookup_imap in H1. rewrite list_lookup_imap in H2.
    destruct (st !! j) as [a |] eqn:Ha; [| discriminate].
    destruct (st' !! j) as [b |] eqn:Hb; [| discriminate].
    inversion H1; subst. inversion H2; subst.
    assert (Hab : SPHParticle.position o1 = SPHParticle.position o2).
    { assert (Hj : (SPHParticle.position <$> st) !! j2 =
                   (SPHParticle.position <$> st') !! j2) by (rewrite Hpos; reflexivity).
      rewrite !list_lookup_fmap, Ha, Hb in Hj. inversion Hj. reflexivity. }
    unfold neighborEntry. cbn [fst snd]. rewrite Hab. reflexivity.
Qed.

(** After [findNeighbors], the particle at [i] is the old one with the
    neighbour list scanned from the old store. *)
Lemma findNeighbors_lookup (i : nat) :
  SPHSystem.particles (SPHSystem.findNeighbors this) !! i =
  (fun p => SPHParticle.set_neighbors p
              (SPHSystem.scanNeighbors this (SPHSystem.particles this) i p))
    <$> SPHSystem.particles this !! i.
Proof.
  unfold SPHSystem.findNeighbors. cbn [SPHSystem.particles SPHSystem.set_particles].
  apply (forEachParticle_lookup SPHParticle.position).
  - intros st st' j p Hv. f_equal. apply scanNeighbors_reads, Hv.
  - intros st j p. reflexivity.
Qed.

End FindNeighbors.

(** C5.  After [findNeighbors], for two distinct particles [A] (stored
    at [i]) and [B] (stored at [j]): [A] lists [B] exactly when their
    distance is less than [h], so not at distance [h]; [A] lists [B]
    exactly when [B] lists [A]; the entries record the distance
    [|B.position - A.position|] on both sides, and their directions are
    opposite. *)
Theorem findNeighbors_symmetric (this : SPHSystem.t) (i j : nat)
    (A B : SPHParticle.t) :
  i <> j ->
  SPHSystem.particles this !! i = Some A ->
  SPHSystem.particles this !! j = Some B ->
  exists A' B',
    SPHSystem.particles (SPHSystem.findNeighbors this) !! i = Some A' /\
    SPHSystem.particles (SPHSystem.findNeighbors this) !! j = Some B' /\
    (lists A' j <->
     Vector3.length (Vector3.sub (SPHParticle.position B)
                       (SPHParticle.position A)) < SPHSystem.h this) /\
    (lists A' j <-> lists B' i) /\
    (forall n m,
       n ∈ SPHParticle.neighbors A' -> SPHParticle.particle n = j ->
       m ∈ SPHParticle.neighbors B' -> SPHParticle.particle m = i ->
       SPHParticle.distance n =
         Vector3.length (Vector3.sub (SPHParticle.position B)
                           (SPHParticle.position A)) /\
       SPHParticle.distance m =
         Vector3.length (Vector3.sub (SPHParticle.position B)
                           (SPHParticle.position A)) /\
       SPHParticle.direction n = Vector3.negate (SPHParticle.direction m)).
Proof.
  intros Hij HA HB.
  eexists. eexists.
  split; [rewrite findNeighbors_lookup, HA; reflexivity |].
  split; [rewrite findNeighbors_lookup, HB; reflexivity |].
  cbn [SPHParticle.neighbors SPHParticle.set_neighbors].
  assert (HlistsA : forall n,
    n ∈ SPHSystem.scanNeighbors this (SPHSystem.particles this) i A ->
    SPHParticle.particle n = j ->
    Vector3.distanceTo (SPHParticle.position A) (SPHParticle.position B)
      < SPHSystem.h this /\
    n = SPHParticle.mkNeighbor j
          (Vector3.distanceTo (SPHParticle.position A) (SPHParticle.position B))
          (Vector3.normalize (Vector3.sub (SPHParticle.position B)
                                (SPHParticle.position A)))).
  { intros n Hn Hpn. apply elem_of_scanNeighbors in Hn.
    destruct Hn as (k & other & Hk & _ & Hd & ->). simpl in Hpn. subst k.
    rewrite HB in Hk. inversion Hk; subst other. tauto. }
  assert (HlistsB : forall m,
    m ∈ SPHSystem.scanNeighbors this (SPHSystem.particles this) j B ->
    SPHParticle.particle m = i ->
    Vector3.distanceTo (SPHParticle.position B) (SPHParticle.position A)
      < SPHSystem.h this /\
    m = SPHParticle.mkNeighbor i
          (Vector3.distanceTo (SPHParticle.position B) (SPHParticle.position A))
          (Vector3.normalize (Vector3.sub (SPHParticle.position A)
                                (SPHParticle.position B)))).
  { intros m Hm Hpm. apply elem_of_scanNeighbors in Hm.
    destruct Hm as (k & other & Hk & _ & Hd & ->). simpl in Hpm. subst k.
    rewrite HA in Hk. inversion Hk; subst other. tauto. }
  assert (HA_iff : lists
      (SPHParticle.set_neighbors A
         (SPHSystem.scanNeighbors this (SPHSystem.particles this) i A)) j <->
      Vector3.distanceTo (SPHParticle.position A) (SPHParticle.position B)
        < SPHSystem.h this).
  { unfold lists. cbn [SPHParticle.neighbors SPHParticle.set_neighbors]. split.
    - intros (n & Hn & Hpn). apply (HlistsA n Hn Hpn).
    - intros Hd. eexists. split.
      + apply elem_of_scanNeighbors. exists j, B. repeat split; assumption.
      + reflexivity. }
  assert (HB_iff : lists
      (SPHParticle.set_neighbors B
         (SPHSystem.scanNeighbors this (SPHSystem.particles this) j B)) i <->
      Vector3.distanceTo (SPHParticle.position B) (SPHParticle.position A)
        < SPHSystem.h this).
  { unfold lists. cbn [SPHParticle.neighbors SPHParticle.set_neighbors]. split.
    - intros (m & Hm & Hpm). apply (HlistsB m Hm Hpm).
    - intros Hd. eexists. split.
      + apply elem_of_scanNeighbors. exists i, A.
        repeat split; try assumption. congruence.
      + reflexivity. }
  split; [| split].
  - rewrite HA_iff, Vector3_distanceTo_length. reflexivity.
  - rewrite HA_iff, HB_iff, (Vector3_distanceTo_sym (SPHParticle.position A)).
    reflexivity.
  - intros n m Hn Hpn Hm Hpm.
    destruct (HlistsA n Hn Hpn) as [_ ->].
    destruct (HlistsB m Hm Hpm) as [_ ->].
    cbn [SPHParticle.distance SPHParticle.direction].
    split; [apply Vector3_distanceTo_length |].
    split; [rewrite Vector3_distanceTo_sym; apply Vector3_distanceTo_length |].
    apply Vector3_normalize_sub_negate.
Qed.

Lemma findNeighbors_symmetric_witness :
  (0 <> 1)%nat /\
  exists A' B',
    SPHSystem.particles (SPHSystem.findNeighbors twoParticleSolver) !! 0%nat
      = Some A' /\
    SPHSystem.particles (SPHSystem.findNeighbors twoParticleSolver) !! 1%nat
      = Some B' /\
    (lists A' 1 <->
     Vector3.length
       (Vector3.sub (SPHParticle.position (particleAt (Vector3.mk 0.1 0 0)))
          (SPHParticle.position (particleAt (Vector3.mk 0 0 0))))
     < SPHSystem.h twoParticleSolver) /\
    (lists A' 1 <-> lists B' 0) /\
    (forall n m,
       n ∈ SPHParticle.neighbors A' -> SPHParticle.particle n = 1%nat ->
       m ∈ SPHParticle.neighbors B' -> SPHParticle.particle m = 0%nat ->
       SPHParticle.distance n =
         Vector3.length
           (Vector3.sub (SPHParticle.position (particleAt (Vector3.mk 0.1 0 0)))
              (SPHParticle.position (particleAt (Vector3.mk 0 0 0)))) /\
       SPHParticle.distance m =
         Vector3.length
           (Vector3.sub (SPHParticle.position (particleAt (Vector3.mk 0.1 0 0)))
              (SPHParticle.position (particleAt (Vector3.mk 0 0 0)))) /\
       SPHParticle.direction n = Vector3.negate (SPHParticle.direction m)).
Proof.
  split; [lia |].
  apply (findNeighbors_symmetric twoParticleSolver 0 1
           (particleAt (Vector3.mk 0 0 0)) (particleAt (Vector3.mk 0.1 0 0)));
    [lia | reflexivity | reflexivity].
Defined.

(** ** Density and pressure *)

Lemma fold_left_pointwise {A B : Type} (f g : A -> B -> A) (l : list B) :
  (forall a b, b ∈ l -> f a b = g a b) ->
  forall a, fold_left f l a = fold_left g l a.
Proof.
  induction l as [| b l IH]; intros Hfg a; [reflexivity |].
  simpl. rewrite Hfg by apply list_elem_of_here.
  apply IH. intros a' b' Hb'. apply Hfg. apply list_elem_of_further, Hb'.
Qed.

Lemma poly6Constant_positive (h : R) :
  0 < h -> 0 < 315.0 / (64.0 * PI * h ^ 9).
Proof.
  intros Hh. pose proof PI_RGT_0 as Hpi.
  pose proof (pow_lt h 9 Hh) as H9.
  apply Rdiv_lt_0_compat; [lra |].
  apply Rmult_lt_0_compat; [lra | assumption].
Qed.

Section DensityPressure.
Variable this : SPHSystem.t.

Lemma poly6Kernel_nonneg (r h : R) :
  0 < SPHSystem.poly6Constant this -> 0 <= r ->
  0 <= SPHSystem.poly6Kernel this r h.
Proof.
  intros Hc Hr. unfold SPHSystem.poly6Kernel.
  case_decide as Hrh; [lra |]. cbv zeta.
  assert (Ht : 0 <= h * h - r * r) by nra.
  rewrite !Rmult_assoc.
  apply Rmult_le_pos; [lra |].
  apply Rmult_le_pos; [assumption |].
  apply Rmult_le_pos; assumption.
Qed.

Lemma poly6Kernel_self_positive (h : R) :
  0 < SPHSystem.poly6Constant this -> 0 < h ->
  0 < SPHSystem.poly6Kernel this 0 h.
Proof.
  intros Hc Hh. unfold SPHSystem.poly6Kernel.
  rewrite decide_False by lra. cbv zeta.
  assert (Ht : 0 < h * h - 0 * 0) by nra.
  rewrite !Rmult_assoc.
  apply Rmult_lt_0_compat; [assumption |].
  apply Rmult_lt_0_compat; [assumption |].
  apply Rmult_lt_0_compat; assumption.
Qed.

Lemma densityPressureOf_reads (st st' : list SPHParticle.t)
    (p : SPHParticle.t) :
  SPHParticle.mass <$> st = SPHParticle.mass <$> st' ->
  SPHSystem.densityPressureOf this st p =
  SPHSystem.densityPressureOf this st' p.
Proof.
  intros Hm. unfold SPHSystem.densityPressureOf. cbv zeta.
  rewrite (fold_left_pointwise _
    (fun density neighbor =>
       match st' !! SPHParticle.particle neighbor with
       | Some other =>
           density + SPHParticle.mass other *
             SPHSystem.poly6Kernel this (SPHParticle.distance neighbor)
               (SPHSystem.h this)
       | None => density
       end)); [reflexivity |].
  intros d n _.
  assert (Hk : (SPHParticle.mass <$> st) !! SPHParticle.particle n =
               (SPHParticle.mass <$> st') !! SPHParticle.particle n)
    by (rewrite Hm; reflexivity).
  rewrite !list_lookup_fmap in Hk.
  destruct (st !! SPHParticle.particle n), (st' !! SPHParticle.particle n);
    simpl in Hk; try discriminate; [| reflexivity].
  inversion Hk as [Hmass]. rewrite Hmass. reflexivity.
Qed.

(** After [computeDensityPressure], the particle at [i] is the old one
    with the density and pressure computed from the old store. *)
Lemma computeDensityPressure_lookup (i : nat) :
  SPHSystem.particles (SPHSystem.computeDensityPressure this) !! i =
  SPHSystem.densityPressureOf this (SPHSystem.particles this)
    <$> SPHSystem.particles this !! i.
Proof.
  unfold SPHSystem.computeDensityPressure.
  cbn [SPHSystem.particles SPHSystem.set_particles].
  apply (forEachParticle_lookup SPHParticle.mass
           (fun st _ particle => SPHSystem.densityPressureOf this st particle)).
  - intros st st' j p Hv. apply densityPressureOf_reads, Hv.
  - intros st j p. reflexivity.
Qed.

(** The density of one particle is positive when the self term is and
    every neighbour contributes a non-negative amount. *)
Lemma densityPressureOf_positive (st : list SPHParticle.t)
    (p : SPHParticle.t) :
  0 < SPHSystem.poly6Constant this ->
  0 < SPHSystem.h this ->
  0 < SPHParticle.mass p ->
  (forall q, q ∈ st -> 0 < SPHParticle.mass q) ->
  (forall n, n ∈ SPHParticle.neighbors p -> 0 <= SPHParticle.distance n) ->
  0 < SPHParticle.density (SPHSystem.densityPressureOf this st p).
Proof.
  intros Hc Hh Hm Hst Hns.
  unfold SPHSystem.densityPressureOf. cbv zeta.
  cbn [SPHParticle.density SPHParticle.set_pressure SPHParticle.set_density].
  assert (H0 : 0 < SPHSystem.poly6Kernel this 0 (SPHSystem.h this) *
                   SPHParticle.mass p).
  { apply Rmult_lt_0_compat; [apply poly6Kernel_self_positive |]; assumption. }
  revert H0.
  generalize (SPHSystem.poly6Kernel this 0 (SPHSystem.h this) *
              SPHParticle.mass p) as acc.
  induction (SPHParticle.neighbors p) as [| n l IH]; intros acc Hacc;
    [exact Hacc |].
  cbn [fold_left]. apply IH.
  - intros n' Hn'. apply Hns. apply list_elem_of_further, Hn'.
  - destruct (st !! SPHParticle.particle n) as [other |] eqn:Hother;
      [| exact Hacc].
    assert (0 < SPHParticle.mass other)
      by (eapply Hst, list_elem_of_lookup_2, Hother).
    assert (0 <= SPHSystem.poly6Kernel this (SPHParticle.distance n)
                   (SPHSystem.h this)).
    { apply poly6Kernel_nonneg; [assumption |].
      apply Hns, list_elem_of_here. }
    nra.
Qed.

End DensityPressure.

(** C4.  Density positivity.  In a solver whose kernel constants are
    those derived from a positive [h], and whose particles all have
    positive mass, every particle has a strictly positive density after
    [findNeighbors] and [computeDensityPressure]: the density starts
    from the positive self term and every neighbour adds a non-negative
    amount. *)
Theorem density_positive (this : SPHSystem.t) (p : SPHParticle.t) :
  kernelConstants this ->
  0 < SPHSystem.h this ->
  (forall q, q ∈ SPHSystem.particles this -> 0 < SPHParticle.mass q) ->
  p ∈ SPHSystem.particles
        (SPHSystem.computeDensityPressure (SPHSystem.findNeighbors this)) ->
  0 < SPHParticle.density p.
Proof.
  intros [Hk _] Hh Hmass Hp.
  apply list_elem_of_lookup_1 in Hp. destruct Hp as [i Hi].
  rewrite computeDensityPressure_lookup in Hi.
  destruct (SPHSystem.particles (SPHSystem.findNeighbors this) !! i)
    as [p1 |] eqn:Hp1; [| discriminate].
  inversion Hi; subst p. clear Hi.
  assert (Hfn : forall k q,
    SPHSystem.particles (SPHSystem.findNeighbors this) !! k = Some q ->
    exists q0, SPHSystem.particles this !! k = Some q0 /\
      q = SPHParticle.set_neighbors q0
            (SPHSystem.scanNeighbors this (SPHSystem.particles this) k q0)).
  { intros k q Hq. rewrite findNeighbors_lookup in Hq.
    destruct (SPHSystem.particles this !! k) as [q0 |]; [| discriminate].
    inversion Hq. exists q0. split; reflexivity. }
  destruct (Hfn i p1 Hp1) as (p0 & Hp0 & ->).
  apply densityPressureOf_positive.
  - change (SPHSystem.poly6Constant (SPHSystem.findNeighbors this))
      with (SPHSystem.poly6Constant this).
    rewrite Hk. apply poly6Constant_positive, Hh.
  - exact Hh.
  - cbn [SPHParticle.mass SPHParticle.set_neighbors].
    apply Hmass. eapply list_elem_of_lookup_2, Hp0.
  - intros q Hq. apply list_elem_of_lookup_1 in Hq. destruct Hq as [k Hq].
    destruct (Hfn k q Hq) as (q0 & Hq0 & ->).
    cbn [SPHParticle.mass SPHParticle.set_neighbors].
    apply Hmass. eapply list_elem_of_lookup_2, Hq0.
  - intros n Hn. cbn [SPHParticle.neighbors SPHParticle.set_neighbors] in Hn.
    apply elem_of_scanNeighbors in Hn.
    destruct Hn as (j & other & _ & _ & _ & ->).
    apply Vector3_distanceTo_nonneg.
Qed.

Lemma density_positive_witness :
  kernelConstants twoParticleSolver /\
  0 < SPHSystem.h twoParticleSolver /\
  exists p,
    SPHSystem.particles
      (SPHSystem.computeDensityPressure
         (SPHSystem.findNeighbors twoParticleSolver)) !! 0%nat = Some p /\
    0 < SPHParticle.density p.
Proof.
  assert (Hk : kernelConstants twoParticleSolver)
    by (repeat split; reflexivity).
  assert (Hh : 0 < SPHSystem.h twoParticleSolver)
    by (simpl; lra).
  split; [exact Hk | split; [exact Hh |]].
  eexists. split.
  - rewrite computeDensityPressure_lookup, findNeighbors_lookup. reflexivity.
  - apply (density_positive twoParticleSolver); [exact Hk | exact Hh | |].
    + intros q Hq. simpl in Hq.
      apply elem_of_cons in Hq. destruct Hq as [-> | Hq];
        [simpl; lra |].
      apply list_elem_of_singleton in Hq. subst q. simpl; lra.
    + apply (list_elem_of_lookup_2 _ 0%nat).
      rewrite computeDensityPressure_lookup, findNeighbors_lookup. reflexivity.
Defined.

(** ** Forces *)

Lemma forEachParticle_imap {V : Type} (view : SPHParticle.t -> V)
    (body : list SPHParticle.t -> nat -> SPHParticle.t -> SPHParticle.t)
    (ps : list SPHParticle.t) :
  (forall st st' i p, view <$> st = view <$> st' -> body st i p = body st' i p) ->
  (forall st i p, view (body st i p) = view p) ->
  forEachParticle body ps = imap (body ps) ps.
Proof.
  intros Hreads Hkeeps. apply list_eq. intros i.
  rewrite (forEachParticle_lookup view body Hreads Hkeeps), list_lookup_imap.
  reflexivity.
Qed.

Section Forces.
Variable this : SPHSystem.t.

Lemma accumulate_reads (st st' : list SPHParticle.t) (p : SPHParticle.t)
    (acc : SPHSystem.Accumulators) (n : SPHParticle.Neighbor) :
  forceView <$> st = forceView <$> st' ->
  SPHSystem.accumulate this st p acc n = SPHSystem.accumulate this st' p acc n.
Proof.
  intros Hv. unfold SPHSystem.accumulate.
  assert (Hk : (forceView <$> st) !! SPHParticle.particle n =
               (forceView <$> st') !! SPHParticle.particle n)
    by (rewrite Hv; reflexivity).
  rewrite !list_lookup_fmap in Hk.
  destruct (st !! SPHParticle.particle n) as [o |],
           (st' !! SPHParticle.particle n) as [o' |];
    simpl in Hk; try discriminate; [| reflexivity].
  unfold forceView in Hk. inversion Hk as [[Hp Hd Hm Hvel]].
  cbv zeta. rewrite Hp, Hd, Hm, Hvel. reflexivity.
Qed.

Lemma forcesOf_reads (st st' : list SPHParticle.t) (p : SPHParticle.t) :
  forceView <$> st = forceView <$> st' ->
  SPHSystem.forcesOf this st p = SPHSystem.forcesOf this st' p.
Proof.
  intros Hv. unfold SPHSystem.forcesOf, SPHSystem.neighborForces. cbv zeta.
  rewrite (fold_left_pointwise _ _ _
             (fun a b _ => accumulate_reads st st' _ a b Hv)).
  reflexivity.
Qed.

Lemma forcesOf_keeps (st : list SPHParticle.t) (p : SPHParticle.t) :
  forceView (SPHSystem.forcesOf this st p) = forceView p.
Proof.
  unfold SPHSystem.forcesOf. cbv zeta. case_decide; reflexivity.
Qed.

(** After [computeForces], the particle at [i] is the old one with the
    force computed from the old store: the forces written earlier in
    the pass are not read. *)
Lemma computeForces_lookup (i : nat) :
  SPHSystem.particles (SPHSystem.computeForces this) !! i =
  SPHSystem.forcesOf this (SPHSystem.particles this)
    <$> SPHSystem.particles this !! i.
Proof.
  unfold SPHSystem.computeForces.
  cbn [SPHSystem.particles SPHSystem.set_particles].
  apply (forEachParticle_lookup forceView
           (fun st _ particle => SPHSystem.forcesOf this st particle)).
  - intros st st' j p Hv. apply forcesOf_reads, Hv.
  - intros st j p. apply forcesOf_keeps.
Qed.

(** The force [computeForces] leaves on a particle: gravity, then the
    pressure accumulator, then the scaled viscosity accumulator, then
    the surface force when the surface normal is long enough. *)
Lemma forcesOf_force (st : list SPHParticle.t) (p : SPHParticle.t) :
  let acc := SPHSystem.neighborForces this st p in
  let base :=
    Vector3.add
      (Vector3.add
         (Vector3.add Vector3.zero
            (Vector3.multiplyScalar (SPHSystem.gravity this)
               (SPHParticle.mass p)))
         (SPHSystem.pressureForce acc))
      (Vector3.multiplyScalar (SPHSystem.viscosityForce acc)
         (SPHSystem.viscosity this * SPHParticle.mass p)) in
  SPHParticle.force (SPHSystem.forcesOf this st p) =
  if decide (Vector3.length (SPHSystem.surfaceNormal acc) >
             SPHSystem.surfaceThreshold this)
  then Vector3.add base
         (Vector3.multiplyScalar
            (Vector3.normalize (SPHSystem.surfaceNormal acc))
            (- SPHSystem.surfaceTension this *
             SPHSystem.colorFieldLaplacian acc))
  else base.
Proof.
  cbv zeta. unfold SPHSystem.forcesOf. cbv zeta.
  change (SPHSystem.neighborForces this st
            (SPHParticle.addForce (SPHParticle.resetForce p) _))
    with (SPHSystem.neighborForces this st p).
  case_decide; reflexivity.
Qed.

(** The pressure force that [computeForces] adds to [p] is the
    [pressureForce] accumulator of the neighbour loop run on [p]. *)
Lemma forcesOf_neighborForces (st : list SPHParticle.t)
    (p : SPHParticle.t) :
  SPHSystem.neighborForces this st
    (SPHParticle.addForce (SPHParticle.resetForce p)
       (Vector3.multiplyScalar (SPHSystem.gravity this) (SPHParticle.mass p)))
  = SPHSystem.neighborForces this st p.
Proof. reflexivity. Qed.

End Forces.

Lemma Vector3_negate_zero : Vector3.negate (Vector3.mk 0 0 0) = Vector3.mk 0 0 0.
Proof. unfold Vector3.negate; simpl. f_equal; ring. Qed.

(** C1.  Momentum symmetry.  In a solver whose particles are [A] and
    [B], of equal mass, after [findNeighbors] and
    [computeDensityPressure] (which give [A'] and [B']),
    [computeForces] computes the force of each particle against the
    store [[A'; B']], and the pressure force that its neighbour loop
    accumulates for [A'] is the negation of the one it accumulates for
    [B']. *)
Theorem pressure_force_antisymmetric (this : SPHSystem.t)
    (A B : SPHParticle.t) :
  SPHSystem.particles this = [A; B] ->
  SPHParticle.mass A = SPHParticle.mass B ->
  exists A' B',
    SPHSystem.particles
      (SPHSystem.computeDensityPressure (SPHSystem.findNeighbors this))
      = [A'; B'] /\
    SPHSystem.particles
      (SPHSystem.computeForces
         (SPHSystem.computeDensityPressure (SPHSystem.findNeighbors this)))
      = [SPHSystem.forcesOf
           (SPHSystem.computeDensityPressure (SPHSystem.findNeighbors this))
           [A'; B'] A';
         SPHSystem.forcesOf
           (SPHSystem.computeDensityPressure (SPHSystem.findNeighbors this))
           [A'; B'] B'] /\
    SPHSystem.pressureForce
      (SPHSystem.neighborForces
         (SPHSystem.computeDensityPressure (SPHSystem.findNeighbors this))
         [A'; B'] A') =
    Vector3.negate
      (SPHSystem.pressureForce
         (SPHSystem.neighborForces
            (SPHSystem.computeDensityPressure (SPHSystem.findNeighbors this))
            [A'; B'] B')).
Proof.
  intros Hps Hmass.
  set (this1 := SPHSystem.findNeighbors this).
  set (this2 := SPHSystem.computeDensityPressure this1).
  assert (H1 : SPHSystem.particles this1 =
    [SPHParticle.set_neighbors A (SPHSystem.scanNeighbors this [A; B] 0 A);
     SPHParticle.set_neighbors B (SPHSystem.scanNeighbors this [A; B] 1 B)]).
  { apply list_eq. intros [| [| i]]; unfold this1;
      rewrite findNeighbors_lookup, Hps; reflexivity. }
  set (A1 := SPHParticle.set_neighbors A _) in H1.
  set (B1 := SPHParticle.set_neighbors B _) in H1.
  assert (H2 : SPHSystem.particles this2 =
    [SPHSystem.densityPressureOf this1 [A1; B1] A1;
     SPHSystem.densityPressureOf this1 [A1; B1] B1]).
  { apply list_eq. intros [| [| i]]; unfold this2;
      rewrite computeDensityPressure_lookup, H1; reflexivity. }
  eexists. eexists. split; [exact H2 |].
  split.
  { apply list_eq. intros [| [| i]];
      rewrite computeForces_lookup; fold this1 this2; rewrite H2; reflexivity. }
  set (d := Vector3.distanceTo (SPHParticle.position A) (SPHParticle.position B)).
  set (dir := Vector3.normalize
                (Vector3.sub (SPHParticle.position B) (SPHParticle.position A))).
  assert (HsA : SPHSystem.scanNeighbors this [A; B] 0 A =
                if decide (d < SPHSystem.h this)
                then [SPHParticle.mkNeighbor 1 d dir] else []).
  { unfold SPHSystem.scanNeighbors. cbn [imap fold_left compose].
    rewrite (decide_True (P := 0%nat = 0%nat)) by reflexivity.
    rewrite (decide_False (P := 0%nat = 1%nat)) by lia.
    fold d dir. reflexivity. }
  assert (HsB : SPHSystem.scanNeighbors this [A; B] 1 B =
                if decide (d < SPHSystem.h this)
                then [SPHParticle.mkNeighbor 0 d (Vector3.negate dir)] else []).
  { unfold SPHSystem.scanNeighbors. cbn [imap fold_left compose].
    rewrite (decide_False (P := 1%nat = 0%nat)) by lia.
    rewrite (decide_True (P := 1%nat = 1%nat)) by reflexivity.
    rewrite (Vector3_distanceTo_sym (SPHParticle.position B)).
    rewrite (Vector3_normalize_sub_negate (SPHParticle.position A)).
    fold d dir. reflexivity. }
  unfold SPHSystem.neighborForces.
  cbn [SPHParticle.neighbors SPHSystem.densityPressureOf
       SPHParticle.set_pressure SPHParticle.set_density].
  subst A1 B1. cbn [SPHParticle.neighbors SPHParticle.set_neighbors].
  rewrite HsA, HsB.
  destruct (decide (d < SPHSystem.h this)) as [Hd | Hd].
  2: { simpl. symmetry. apply Vector3_negate_zero. }
  set (nA := SPHParticle.mkNeighbor 1 d dir).
  set (nB := SPHParticle.mkNeighbor 0 d (Vector3.negate dir)).
  set (A1 := SPHParticle.set_neighbors A [nA]).
  set (B1 := SPHParticle.set_neighbors B [nB]).
  set (A2 := SPHSystem.densityPressureOf this1 [A1; B1] A1).
  set (B2 := SPHSystem.densityPressureOf this1 [A1; B1] B1).
  assert (Hrho : SPHParticle.density A2 = SPHParticle.density B2).
  { unfold A2, B2, SPHSystem.densityPressureOf. cbv zeta.
    cbn [SPHParticle.density SPHParticle.set_pressure SPHParticle.set_density].
    change (SPHParticle.neighbors A1) with [nA].
    change (SPHParticle.neighbors B1) with [nB].
    cbn [fold_left].
    change ([A1; B1] !! SPHParticle.particle nA) with (Some B1).
    change ([A1; B1] !! SPHParticle.particle nB) with (Some A1).
    cbv beta iota.
    change (SPHParticle.mass A1) with (SPHParticle.mass A).
    change (SPHParticle.mass B1) with (SPHParticle.mass B).
    change (SPHParticle.distance nA) with d.
    change (SPHParticle.distance nB) with d.
    rewrite Hmass. reflexivity. }
  assert (Hp : SPHParticle.pressure A2 = SPHParticle.pressure B2).
  { change (SPHParticle.pressure A2)
      with (SPHSystem.gasConstant this1 *
            (SPHParticle.density A2 - SPHSystem.restDensity this1)).
    change (SPHParticle.pressure B2)
      with (SPHSystem.gasConstant this1 *
            (SPHParticle.density B2 - SPHSystem.restDensity this1)).
    rewrite Hrho. reflexivity. }
  assert (Hm : SPHParticle.mass A2 = SPHParticle.mass B2) by exact Hmass.
  cbn [fold_left]. unfold SPHSystem.accumulate.
  change ([A2; B2] !! SPHParticle.particle nA) with (Some B2).
  change ([A2; B2] !! SPHParticle.particle nB) with (Some A2).
  cbv beta iota zeta. cbn [SPHSystem.pressureForce SPHParticle.direction SPHParticle.distance nA nB].
  rewrite spikyGradKernel_negate, Hrho, Hp, Hm.
  generalize (SPHSystem.spikyGradKernel this2 d (SPHSystem.h this2) dir) as G.
  intros G.
  unfold Vector3.negate, Vector3.add, Vector3.multiplyScalar. simpl.
  f_equal; ring.
Qed.

Lemma pressure_force_antisymmetric_witness :
  exists A' B',
    SPHSystem.particles
      (SPHSystem.computeDensityPressure
         (SPHSystem.findNeighbors twoParticleSolver)) = [A'; B'] /\
    SPHSystem.particles
      (SPHSystem.computeForces
         (SPHSystem.computeDensityPressure
            (SPHSystem.findNeighbors twoParticleSolver)))
      = [SPHSystem.forcesOf
           (SPHSystem.computeDensityPressure
              (SPHSystem.findNeighbors twoParticleSolver))
           [A'; B'] A';
         SPHSystem.forcesOf
           (SPHSystem.computeDensityPressure
              (SPHSystem.findNeighbors twoParticleSolver))
           [A'; B'] B'] /\
    SPHSystem.pressureForce
      (SPHSystem.neighborForces
         (SPHSystem.computeDensityPressure
            (SPHSystem.findNeighbors twoParticleSolver))
         [A'; B'] A') =
    Vector3.negate
      (SPHSystem.pressureForce
         (SPHSystem.neighborForces
            (SPHSystem.computeDensityPressure
               (SPHSystem.findNeighbors twoParticleSolver))
            [A'; B'] B')).
Proof.
  apply (pressure_force_antisymmetric twoParticleSolver
           (particleAt (Vector3.mk 0 0 0)) (particleAt (Vector3.mk 0.1 0 0)));
    reflexivity.
Defined.

(** ** Initialisation *)

Lemma flat_map_singleton {A B : Type} (f : A -> B) (l : list A) :
  flat_map (fun a => [f a]) l = List.map f l.
Proof. induction l as [| a l IH]; simpl; [| rewrite IH]; reflexivity. Qed.

Lemma flat_map_length_const {A B : Type} (f : A -> list B) (m : nat)
    (l : list A) :
  (forall a, length (f a) = m) -> length (flat_map f l) = (length l * m)%nat.
Proof.
  intros Hf. induction l as [| a l IH]; simpl; [reflexivity |].
  rewrite length_app, Hf, IH. reflexivity.
Qed.

Lemma gridPositions_length (fl : R -> R) (min : Vector3.t) (spacing : R)
    (nx ny nz : nat) :
  length (gridPositions fl min spacing nx ny nz) = (nx * ny * nz)%nat.
Proof.
  unfold gridPositions.
  rewrite (flat_map_length_const _ (ny * nz)).
  - rewrite length_seq. lia.
  - intros i. rewrite (flat_map_length_const _ nz).
    + rewrite length_seq. reflexivity.
    + intros j. rewrite length_map, length_seq. reflexivity.
Qed.

Lemma take_app_take {A : Type} (k : nat) (l1 l2 : list A) :
  take k (l1 ++ l2) = take k l1 ++ take (k - length (take k l1)) l2.
Proof.
  rewrite take_app, length_take. f_equal. f_equal. lia.
Qed.

Lemma addParticles_app (this : SPHSystem.t) (l1 l2 : list Vector3.t) :
  addParticles this (l1 ++ l2) = addParticles (addParticles this l1) l2.
Proof. unfold addParticles. apply fold_left_app. Qed.

Lemma addParticles_config (this : SPHSystem.t) (l : list Vector3.t) :
  SPHSystem.particleMass (addParticles this l) = SPHSystem.particleMass this /\
  SPHSystem.h (addParticles this l) = SPHSystem.h this.
Proof.
  revert this. induction l as [| a l IH]; intros this; [split; reflexivity |].
  unfold addParticles in *. cbn [fold_left]. rewrite !(proj1 (IH _)), !(proj2 (IH _)).
  split; reflexivity.
Qed.

Lemma addParticles_particles (this : SPHSystem.t) (l : list Vector3.t) :
  SPHSystem.particles (addParticles this l) =
  SPHSystem.particles this ++
    List.map (fun position =>
                SPHParticle.new position (SPHSystem.particleMass this)) l.
Proof.
  revert this. induction l as [| a l IH]; intros this.
  - simpl. rewrite app_nil_r. reflexivity.
  - unfold addParticles in *. cbn [fold_left]. rewrite IH.
    cbn [SPHSystem.addParticle fst SPHSystem.particles SPHSystem.set_particles
         SPHSystem.particleMass List.map].
    rewrite <- app_assoc. reflexivity.
Qed.

Lemma positions_of_new (m : R) (l : list Vector3.t) :
  SPHParticle.position <$>
    List.map (fun position => SPHParticle.new position m) l = l.
Proof.
  induction l as [| a l IH]; [reflexivity |].
  cbn [List.map]. rewrite fmap_cons, IH. reflexivity.
Qed.

Section FillLoop.
Variable count : nat.

Lemma for_lt_fills (body : nat -> SPHSystem.t * nat -> SPHSystem.t * nat)
    (G : nat -> list Vector3.t) :
  fills count body G ->
  forall n i this created,
    for_lt n i (fun s => (snd s <? count)%nat) body (this, created) =
    (addParticles this (take (count - created) (flat_map G (seq i n))),
     (created +
      length (take (count - created) (flat_map G (seq i n))))%nat).
Proof.
  intros Hbody. induction n as [| n IH]; intros i this created.
  - simpl. rewrite take_nil. simpl. rewrite Nat.add_0_r. reflexivity.
  - cbn [for_lt seq flat_map snd].
    destruct (created <? count)%nat eqn:Hroom.
    + apply Nat.ltb_lt in Hroom.
      rewrite (Hbody i this created Hroom), IH.
      rewrite take_app_take, addParticles_app, length_app.
      set (k := length (take (count - created) (G i))).
      replace (count - (created + k))%nat with (count - created - k)%nat by lia.
      f_equal. lia.
    + apply Nat.ltb_ge in Hroom.
      replace (count - created)%nat with 0%nat by lia.
      rewrite !take_0. simpl. rewrite Nat.add_0_r. reflexivity.
Qed.

End FillLoop.

(** [initializeParticles] adds, in order, the first [count] positions of
    the grid. *)
Lemma initializeParticles_addParticles (fl : R -> R) (this : SPHSystem.t)
    (count : nat) (region : Box3.t) :
  let min := Box3.min region in
  let max := Box3.max region in
  let spacing := fl (SPHSystem.h this * 0.5) in
  SPHSystem.initializeParticles fl this count region =
  addParticles this
    (take count
       (gridPositions fl min spacing
          (gridCells fl (Vector3.x min) (Vector3.x max) spacing)
          (gridCells fl (Vector3.y min) (Vector3.y max) spacing)
          (gridCells fl (Vector3.z min) (Vector3.z max) spacing))).
Proof.
  cbv zeta. unfold SPHSystem.initializeParticles, gridPositions, gridCells.
  cbv zeta.
  set (min := Box3.min region). set (max := Box3.max region).
  set (spacing := fl (SPHSystem.h this * 0.5)).
  set (nx := Z.to_nat _). set (ny := Z.to_nat _). set (nz := Z.to_nat _).
  rewrite (for_lt_fills count _
    (fun i => flat_map (fun j =>
       List.map (fun k =>
         Vector3.mk (fl (Vector3.x min + fl (INR i * spacing)))
                    (fl (Vector3.y min + fl (INR j * spacing)))
                    (fl (Vector3.z min + fl (INR k * spacing)))) (seq 0 nz))
       (seq 0 ny))).
  - cbn [fst]. rewrite Nat.sub_0_r. reflexivity.
  - intros i s c Hc.
    rewrite (for_lt_fills count _
      (fun j => List.map (fun k =>
         Vector3.mk (fl (Vector3.x min + fl (INR i * spacing)))
                    (fl (Vector3.y min + fl (INR j * spacing)))
                    (fl (Vector3.z min + fl (INR k * spacing)))) (seq 0 nz))).
    + reflexivity.
    + intros j s' c' Hc'.
      rewrite (for_lt_fills count _
        (fun k => [Vector3.mk (fl (Vector3.x min + fl (INR i * spacing)))
                              (fl (Vector3.y min + fl (INR j * spacing)))
                              (fl (Vector3.z min + fl (INR k * spacing)))])).
      * rewrite flat_map_singleton. reflexivity.
      * intros k s'' c'' Hc''. cbn [fst snd].
        destruct (count - c'')%nat as [| r] eqn:Hr; [lia |].
        unfold addParticles. simpl. rewrite !take_nil. simpl. f_equal. lia.
Qed.

(** The number of cells of an axis is decided by the rounded quotient:
    where the quotient of [0.3] by [0.05] rounds to a double just below
    [6], the axis has [5] cells, whatever the exact quotient is. *)
Lemma gridCells_floor (fl : R -> R) (lo hi spacing : R) (n : nat) :
  INR n <= fl (fl (hi - lo) / spacing) < INR n + 1 ->
  gridCells fl lo hi spacing = n.
Proof.
  intros Hq. unfold gridCells.
  rewrite (Zfloor_eq (Z.of_nat n)); [apply Nat2Z.id |].
  rewrite <- INR_IZR_INZ. exact Hq.
Qed.

(** C9.  Initialisation.  From an empty collection, with a spacing
    [0.5 * h] that is not zero (the constructor never yields [h = 0]),
    [initializeParticles(count, region)] creates the particles at the
    first [count] positions of the regular grid of that spacing that
    starts at [min], x outermost, then y, then z innermost, with
    [floor((max - min) / spacing)] cells per axis (none if that is
    negative), the floor being taken of the quotient as the source
    computes it; the number created is the minimum of [count] and the
    grid size; and clearing the collection and initialising again with
    the same count and region gives the same positions.  This holds
    whatever the rounding [fl] of the arithmetic is. *)
Theorem initializeParticles_grid (fl : R -> R) (this : SPHSystem.t)
    (count : nat) (region : Box3.t) :
  SPHSystem.particles this = [] ->
  fl (SPHSystem.h this * 0.5) <> 0 ->
  let min := Box3.min region in
  let max := Box3.max region in
  let spacing := fl (SPHSystem.h this * 0.5) in
  let nx := gridCells fl (Vector3.x min) (Vector3.x max) spacing in
  let ny := gridCells fl (Vector3.y min) (Vector3.y max) spacing in
  let nz := gridCells fl (Vector3.z min) (Vector3.z max) spacing in
  let this' := SPHSystem.initializeParticles fl this count region in
  SPHParticle.position <$> SPHSystem.particles this' =
    take count (gridPositions fl min spacing nx ny nz) /\
  length (SPHSystem.particles this') = Nat.min count (nx * ny * nz) /\
  SPHParticle.position <$>
    SPHSystem.particles
      (SPHSystem.initializeParticles fl (SPHSystem.set_particles this' [])
         count region) =
  SPHParticle.position <$> SPHSystem.particles this'.
Proof.
  intros Hempty Hh. cbv zeta.
  assert (Hpos : forall s : SPHSystem.t,
    SPHSystem.particles s = [] ->
    SPHParticle.position <$>
      SPHSystem.particles (SPHSystem.initializeParticles fl s count region) =
    take count
      (gridPositions fl (Box3.min region) (fl (SPHSystem.h s * 0.5))
         (gridCells fl (Vector3.x (Box3.min region))
            (Vector3.x (Box3.max region)) (fl (SPHSystem.h s * 0.5)))
         (gridCells fl (Vector3.y (Box3.min region))
            (Vector3.y (Box3.max region)) (fl (SPHSystem.h s * 0.5)))
         (gridCells fl (Vector3.z (Box3.min region))
            (Vector3.z (Box3.max region)) (fl (SPHSystem.h s * 0.5))))).
  { intros s Hs. rewrite initializeParticles_addParticles.
    rewrite addParticles_particles, Hs, app_nil_l.
    apply positions_of_new. }
  split; [apply Hpos, Hempty | split].
  - rewrite <- (length_fmap SPHParticle.position), (Hpos this Hempty).
    rewrite length_take, gridPositions_length. lia.
  - rewrite (Hpos this Hempty).
    rewrite (Hpos (SPHSystem.set_particles _ [])) by reflexivity.
    cbn [SPHSystem.h SPHSystem.set_particles].
    rewrite initializeParticles_addParticles.
    rewrite (proj2 (addParticles_config _ _)). reflexivity.
Qed.

Lemma coarseSolver_h : SPHSystem.h coarseSolver = 0.5.
Proof.
  unfold coarseSolver. simpl. unfold js_or.
  rewrite decide_False by lra. reflexivity.
Qed.

Lemma initializeParticles_grid_witness :
  SPHSystem.particles coarseSolver = [] /\
  exact (SPHSystem.h coarseSolver * 0.5) <> 0 /\
  SPHParticle.position <$>
    SPHSystem.particles
      (SPHSystem.initializeParticles exact coarseSolver 3 smallRegion) =
    take 3
      (gridPositions exact (Box3.min smallRegion)
         (exact (SPHSystem.h coarseSolver * 0.5))
         (gridCells exact 0 0.5 (exact (SPHSystem.h coarseSolver * 0.5)))
         (gridCells exact 0 0.5 (exact (SPHSystem.h coarseSolver * 0.5)))
         (gridCells exact 0 0.5 (exact (SPHSystem.h coarseSolver * 0.5)))) /\
  length (SPHSystem.particles
            (SPHSystem.initializeParticles exact coarseSolver 3 smallRegion)) =
    Nat.min 3
      (gridCells exact 0 0.5 (exact (SPHSystem.h coarseSolver * 0.5)) *
       gridCells exact 0 0.5 (exact (SPHSystem.h coarseSolver * 0.5)) *
       gridCells exact 0 0.5 (exact (SPHSystem.h coarseSolver * 0.5))) /\
  SPHParticle.position <$>
    SPHSystem.particles
      (SPHSystem.initializeParticles exact
         (SPHSystem.set_particles
            (SPHSystem.initializeParticles exact coarseSolver 3 smallRegion)
            [])
         3 smallRegion) =
  SPHParticle.position <$>
    SPHSystem.particles
      (SPHSystem.initializeParticles exact coarseSolver 3 smallRegion).
Proof.
  assert (Hs : exact (SPHSystem.h coarseSolver * 0.5) <> 0)
    by (rewrite coarseSolver_h; unfold exact; lra).
  split; [reflexivity |].
  split; [exact Hs |].
  apply (initializeParticles_grid exact coarseSolver 3 smallRegion);
    [reflexivity | exact Hs].
Defined.

Lemma gridCells_small :
  gridCells exact 0 0.5 (exact (SPHSystem.h coarseSolver * 0.5)) = 2%nat.
Proof.
  apply gridCells_floor. rewrite coarseSolver_h. unfold exact.
  replace ((0.5 - 0) / (0.5 * 0.5)) with 2 by lra.
  simpl. lra.
Qed.

(** The solver of radius [0.5] asked for three particles in
    [[0, 0.5]^3]: the grid has [2 * 2 * 2] cells of width [0.25], and
    the first three positions are taken, z varying fastest.  No
    operation rounds at this input, so the rounding is [exact]. *)
Example initializeParticles_three :
  SPHParticle.position <$>
    SPHSystem.particles
      (SPHSystem.initializeParticles exact coarseSolver 3 smallRegion) =
  [Vector3.mk 0 0 0; Vector3.mk 0 0 0.25; Vector3.mk 0 0.25 0].
Proof.
  rewrite initializeParticles_addParticles. cbv zeta.
  rewrite addParticles_particles.
  change (SPHSystem.particles coarseSolver) with (@nil SPHParticle.t).
  rewrite app_nil_l, positions_of_new.
  change (Vector3.x (Box3.min smallRegion)) with 0.
  change (Vector3.y (Box3.min smallRegion)) with 0.
  change (Vector3.z (Box3.min smallRegion)) with 0.
  change (Vector3.x (Box3.max smallRegion)) with 0.5.
  change (Vector3.y (Box3.max smallRegion)) with 0.5.
  change (Vector3.z (Box3.max smallRegion)) with 0.5.
  rewrite gridCells_small. rewrite coarseSolver_h.
  unfold gridPositions, exact.
  simpl. repeat f_equal; lra.
Qed.

(** * Further properties *)

(** ** Kernels at and inside the support radius *)

(** X1.  At [r = h] the gradient kernel is the zero vector and the
    Laplacian kernel is [0], whatever the constants: both are continuous
    at the edge of the support. *)
Theorem kernels_vanish_at_radius (this : SPHSystem.t) (h : R)
    (dir : Vector3.t) :
  SPHSystem.spikyGradKernel this h h dir = Vector3.mk 0 0 0 /\
  SPHSystem.viscosityLaplaceKernel this h h = 0.
Proof.
  unfold SPHSystem.spikyGradKernel, SPHSystem.viscosityLaplaceKernel. split.
  - case_decide; [reflexivity |]. cbv zeta.
    unfold Vector3.multiplyScalar, Rdiv. f_equal; ring.
  - case_decide; [reflexivity | ring].
Qed.

Lemma cube_le (a b : R) : 0 <= a <= b -> a * a * a <= b * b * b.
Proof.
  intros [Ha Hab].
  assert (a * a <= b * b) by nra.
  assert (0 <= a * a) by nra.
  nra.
Qed.

(** X2.  With a positive poly6 constant, [poly6Kernel] is non-negative
    and does not increase with the distance: a nearer neighbour never
    contributes less density than a farther one. *)
Theorem poly6Kernel_monotone (this : SPHSystem.t) (r1 r2 h : R) :
  0 < SPHSystem.poly6Constant this ->
  0 <= r1 <= r2 ->
  0 <= SPHSystem.poly6Kernel this r2 h <= SPHSystem.poly6Kernel this r1 h.
Proof.
  intros Hc [H1 H12].
  split; [apply poly6Kernel_nonneg; [assumption | lra] |].
  unfold SPHSystem.poly6Kernel.
  destruct (decide (r2 > h)) as [H2h | H2h].
  - fold (SPHSystem.poly6Kernel this r1 h).
    apply poly6Kernel_nonneg; assumption.
  - rewrite decide_False by lra. cbv zeta.
    assert (Hcube : (h * h - r2 * r2) * (h * h - r2 * r2) * (h * h - r2 * r2)
                    <= (h * h - r1 * r1) * (h * h - r1 * r1) * (h * h - r1 * r1)).
    { apply cube_le. split; nra. }
    rewrite !Rmult_assoc. apply Rmult_le_compat_l; [lra |].
    rewrite <- !Rmult_assoc. exact Hcube.
Qed.

Lemma poly6Kernel_monotone_witness :
  0 <= SPHSystem.poly6Kernel defaultSolver 0.1 0.16
    <= SPHSystem.poly6Kernel defaultSolver 0.05 0.16.
Proof.
  apply (poly6Kernel_monotone defaultSolver 0.05 0.1 0.16).
  - apply (poly6Constant_positive 0.16). lra.
  - lra.
Defined.

(** ** Obstacle collisions *)

Lemma reflectVelocity_position (normal : Vector3.t) (damping : R)
    (q : SPHParticle.t) :
  SPHParticle.position (reflectVelocity normal damping q) =
  SPHParticle.position q.
Proof. unfold reflectVelocity. cbv zeta. case_decide; reflexivity. Qed.

(** Reflection about a unit normal, then scaling by [k]: the normal
    component changes sign and the squared speed is scaled by [k * k]. *)
Lemma reflect_dot_normal (v n : Vector3.t) (k : R) :
  Vector3.dot n n = 1 ->
  Vector3.dot
    (Vector3.multiplyScalar
       (Vector3.sub v (Vector3.multiplyScalar n (2 * Vector3.dot v n))) k) n
  = - (k * Vector3.dot v n).
Proof.
  destruct v as [vx vy vz], n as [nx ny nz].
  unfold Vector3.dot, Vector3.multiplyScalar, Vector3.sub. simpl. intros Hn.
  replace ((vx - nx * (2 * (vx * nx + vy * ny + vz * nz))) * k * nx +
           (vy - ny * (2 * (vx * nx + vy * ny + vz * nz))) * k * ny +
           (vz - nz * (2 * (vx * nx + vy * ny + vz * nz))) * k * nz)
    with (k * (vx * nx + vy * ny + vz * nz) *
          (1 - 2 * (nx * nx + ny * ny + nz * nz))) by ring.
  rewrite Hn. ring.
Qed.

Lemma reflect_dot_self (v n : Vector3.t) (k : R) :
  Vector3.dot n n = 1 ->
  let v' := Vector3.multiplyScalar
              (Vector3.sub v (Vector3.multiplyScalar n (2 * Vector3.dot v n)))
              k in
  Vector3.dot v' v' = k * k * Vector3.dot v v.
Proof.
  destruct v as [vx vy vz], n as [nx ny nz].
  unfold Vector3.dot, Vector3.multiplyScalar, Vector3.sub. simpl. intros Hn.
  set (s := vx * nx + vy * ny + vz * nz).
  replace ((vx - nx * (2 * s)) * k * ((vx - nx * (2 * s)) * k) +
           (vy - ny * (2 * s)) * k * ((vy - ny * (2 * s)) * k) +
           (vz - nz * (2 * s)) * k * ((vz - nz * (2 * s)) * k))
    with (k * k * (vx * vx + vy * vy + vz * vz - 4 * s * s +
                   4 * s * s * (nx * nx + ny * ny + nz * nz)))
    by (unfold s; ring).
  rewrite Hn. ring.
Qed.

(** What [reflectVelocity] does to the velocity, for a unit normal and a
    damping factor that is not negative. *)
Lemma reflectVelocity_unit (n : Vector3.t) (damping : R)
    (q : SPHParticle.t) :
  Vector3.dot n n = 1 ->
  0 <= damping ->
  let v := SPHParticle.velocity q in
  let v' := SPHParticle.velocity (reflectVelocity n damping q) in
  0 <= Vector3.dot v' n /\
  (Vector3.dot v n < 0 ->
   Vector3.dot v' v' = damping * damping * Vector3.dot v v) /\
  (~ Vector3.dot v n < 0 -> v' = v).
Proof.
  intros Hn Hd. cbv zeta. unfold reflectVelocity. cbv zeta.
  destruct (decide (Vector3.dot (SPHParticle.velocity q) n < 0)) as [Hneg | Hpos].
  - cbn [SPHParticle.velocity SPHParticle.set_velocity].
    rewrite (reflect_dot_normal _ _ _ Hn).
    split; [nra |]. split; [| tauto].
    intros _. apply (reflect_dot_self _ _ _ Hn).
  - split; [lra |]. split; [tauto | reflexivity].
Qed.

Lemma Vector3_normalize_unit (a : Vector3.t) :
  0 < Vector3.length a ->
  Vector3.dot (Vector3.normalize a) (Vector3.normalize a) = 1.
Proof.
  intros Hpos. unfold Vector3.normalize, js_or.
  rewrite decide_False by lra.
  set (L := Vector3.length a) in *.
  assert (HL : L * L =
    Vector3.x a * Vector3.x a + Vector3.y a * Vector3.y a +
    Vector3.z a * Vector3.z a).
  { unfold L, Vector3.length. apply sqrt_sqrt.
    pose proof (Rle_0_sqr (Vector3.x a)) as Hx.
    pose proof (Rle_0_sqr (Vector3.y a)) as Hy.
    pose proof (Rle_0_sqr (Vector3.z a)) as Hz.
    unfold Rsqr in Hx, Hy, Hz. lra. }
  unfold Vector3.dot, Vector3.divideScalar, Vector3.multiplyScalar. simpl.
  replace (Vector3.x a * (1 / L) * (Vector3.x a * (1 / L)) +
           Vector3.y a * (1 / L) * (Vector3.y a * (1 / L)) +
           Vector3.z a * (1 / L) * (Vector3.z a * (1 / L)))
    with ((Vector3.x a * Vector3.x a + Vector3.y a * Vector3.y a +
           Vector3.z a * Vector3.z a) / (L * L)) by (field; lra).
  rewrite <- HL. field. lra.
Qed.

Lemma SphereObstacle_handleCollision_unfold (this : SphereObstacle.t)
    (particle : SPHParticle.t) (damping : R) :
  SphereObstacle.handleCollision this particle damping =
  if decide (Vector3.distanceTo (SPHParticle.position particle)
               (SphereObstacle.position this)
             < SphereObstacle.radius this + 0.05)
  then
    reflectVelocity
      (Vector3.normalize
         (Vector3.sub (SPHParticle.position particle)
            (SphereObstacle.position this)))
      damping
      (SPHParticle.set_position particle
         (Vector3.add (SphereObstacle.position this)
            (Vector3.multiplyScalar
               (Vector3.normalize
                  (Vector3.sub (SPHParticle.position particle)
                     (SphereObstacle.position this)))
               (SphereObstacle.radius this + 0.05))))
  else particle.
Proof. reflexivity. Qed.

Lemma distanceTo_offCentre :
  Vector3.distanceTo (SPHParticle.position particleOffCentre)
    (SphereObstacle.position sphereAtOrigin) = 0.1.
Proof.
  unfold Vector3.distanceTo, Vector3.distanceToSquared. simpl.
  replace ((0.1 - 0) * (0.1 - 0) + (0 - 0) * (0 - 0) + (0 - 0) * (0 - 0))
    with (0.1 * 0.1) by ring.
  apply sqrt_square. lra.
Qed.

(** X4.  Sphere obstacle, particle inside the contact radius and not at
    the centre, damping not negative: afterwards the velocity has no
    component into the sphere; when it had one, the squared speed is
    multiplied by [damping * damping] (the reflection itself loses
    nothing), and otherwise the velocity is kept. *)
Theorem SphereObstacle_velocity_response (this : SphereObstacle.t)
    (particle : SPHParticle.t) (damping : R) :
  0 < Vector3.distanceTo (SPHParticle.position particle)
        (SphereObstacle.position this)
    < SphereObstacle.radius this + 0.05 ->
  0 <= damping ->
  let normal := Vector3.normalize
    (Vector3.sub (SPHParticle.position particle)
       (SphereObstacle.position this)) in
  let v := SPHParticle.velocity particle in
  let v' := SPHParticle.velocity
              (SphereObstacle.handleCollision this particle damping) in
  0 <= Vector3.dot v' normal /\
  (Vector3.dot v normal < 0 ->
   Vector3.dot v' v' = damping * damping * Vector3.dot v v) /\
  (~ Vector3.dot v normal < 0 -> v' = v).
Proof.
  intros [Hpos Hin] Hd. cbv zeta.
  rewrite SphereObstacle_handleCollision_unfold.
  rewrite decide_True by assumption.
  apply (reflectVelocity_unit _ damping
           (SPHParticle.set_position particle _)); [| assumption].
  apply Vector3_normalize_unit.
  rewrite <- Vector3_distanceTo_length, Vector3_distanceTo_sym. exact Hpos.
Qed.

Lemma SphereObstacle_velocity_response_witness :
  0 <= Vector3.dot
         (SPHParticle.velocity
            (SphereObstacle.handleCollision sphereAtOrigin particleOffCentre
               0.5))
         (Vector3.normalize
            (Vector3.sub (SPHParticle.position particleOffCentre)
               (SphereObstacle.position sphereAtOrigin))) /\
  (Vector3.dot (SPHParticle.velocity particleOffCentre)
     (Vector3.normalize
        (Vector3.sub (SPHParticle.position particleOffCentre)
           (SphereObstacle.position sphereAtOrigin))) < 0 ->
   Vector3.dot
     (SPHParticle.velocity
        (SphereObstacle.handleCollision sphereAtOrigin particleOffCentre 0.5))
     (SPHParticle.velocity
        (SphereObstacle.handleCollision sphereAtOrigin particleOffCentre 0.5))
   = 0.5 * 0.5 *
     Vector3.dot (SPHParticle.velocity particleOffCentre)
       (SPHParticle.velocity particleOffCentre)) /\
  (~ Vector3.dot (SPHParticle.velocity particleOffCentre)
       (Vector3.normalize
          (Vector3.sub (SPHParticle.position particleOffCentre)
             (SphereObstacle.position sphereAtOrigin))) < 0 ->
   SPHParticle.velocity
     (SphereObstacle.handleCollision sphereAtOrigin particleOffCentre 0.5)
   = SPHParticle.velocity particleOffCentre).
Proof.
  apply (SphereObstacle_velocity_response sphereAtOrigin particleOffCentre 0.5).
  - rewrite distanceTo_offCentre. simpl. lra.
  - lra.
Defined.

Lemma faceNormal_unit (f : Face) :
  Vector3.dot (faceNormal f) (faceNormal f) = 1.
Proof. destruct f; unfold Vector3.dot; simpl; ring. Qed.

(** The [if] chain of [BoxObstacle.handleCollision] as one selection: a
    face at minimal distance, first in the order of the chain among the
    faces at that distance; the particle is put on it and the velocity
    responds along its normal. *)
Lemma BoxObstacle_handleCollision_selected (this : BoxObstacle.t)
    (particle : SPHParticle.t) (damping : R) :
  BoxObstacle.inside this (SPHParticle.position particle) = true ->
  exists f : Face,
    (forall g, faceDistance this (SPHParticle.position particle) f <=
               faceDistance this (SPHParticle.position particle) g) /\
    (forall g, faceDistance this (SPHParticle.position particle) g =
               faceDistance this (SPHParticle.position particle) f ->
               (faceIndex f <= faceIndex g)%nat) /\
    BoxObstacle.handleCollision this particle damping =
    reflectVelocity (faceNormal f) damping
      (SPHParticle.set_position particle
         (snapToFace this (SPHParticle.position particle) f)).
Proof.
  intros Hin. unfold BoxObstacle.handleCollision. rewrite Hin.
  set (pos := SPHParticle.position particle) in *.
  match goal with |- context [Math_min6 ?a ?b ?c ?d ?e ?f] =>
    pose proof (Math_min6_le a b c d e f) as Hle;
    pose proof (Math_min6_cases a b c d e f) as Hcases;
    set (m := Math_min6 a b c d e f) in *
  end.
  cbv zeta in Hle, Hcases.
  destruct Hle as (L1 & L2 & L3 & L4 & L5 & L6).
  assert (Hnear : forall f, m = faceDistance this pos f ->
            forall g, faceDistance this pos f <= faceDistance this pos g).
  { intros f Hm g. rewrite <- Hm. destruct g; simpl; assumption. }
  destruct (decide (m = _)) as [Hm | Hm1].
  { exists MinX. split; [apply Hnear, Hm |]. split; [| reflexivity].
    intros g _. simpl. lia. }
  destruct (decide (m = _)) as [Hm | Hm2].
  { exists MaxX. split; [apply Hnear, Hm |]. split; [| reflexivity].
    intros g Hg. destruct g; simpl in *; try lia; exfalso; lra. }
  destruct (decide (m = _)) as [Hm | Hm3].
  { exists MinY. split; [apply Hnear, Hm |]. split; [| reflexivity].
    intros g Hg. destruct g; simpl in *; try lia; exfalso; lra. }
  destruct (decide (m = _)) as [Hm | Hm4].
  { exists MaxY. split; [apply Hnear, Hm |]. split; [| reflexivity].
    intros g Hg. destruct g; simpl in *; try lia; exfalso; lra. }
  destruct (decide (m = _)) as [Hm | Hm5].
  { exists MinZ. split; [apply Hnear, Hm |]. split; [| reflexivity].
    intros g Hg. destruct g; simpl in *; try lia; exfalso; lra. }
  destruct (decide (m = _)) as [Hm | Hm6].
  { exists MaxZ. split; [apply Hnear, Hm |]. split; [| reflexivity].
    intros g Hg. destruct g; simpl in *; try lia; exfalso; lra. }
  exfalso. tauto.
Qed.

Lemma snapToFace_not_inside (this : BoxObstacle.t) (pos : Vector3.t)
    (f : Face) :
  BoxObstacle.inside this (snapToFace this pos f) = false.
Proof.
  destruct (BoxObstacle.inside this (snapToFace this pos f)) eqn:Hin;
    [| reflexivity].
  exfalso.
  pose proof (proj1 (BoxObstacle_inside_spec _ _) Hin (faceAxis f)) as H.
  destruct f; simpl in H; lra.
Qed.

(** X5.  After [BoxObstacle.handleCollision] no particle is strictly
    inside the box, wherever it was before. *)
Theorem BoxObstacle_no_penetration (this : BoxObstacle.t)
    (particle : SPHParticle.t) (damping : R) :
  BoxObstacle.inside this
    (SPHParticle.position (BoxObstacle.handleCollision this particle damping))
  = false.
Proof.
  destruct (BoxObstacle.inside this (SPHParticle.position particle)) eqn:Hin.
  - destruct (BoxObstacle_handleCollision_selected this particle damping Hin)
      as (f & _ & _ & ->).
    rewrite reflectVelocity_position.
    cbn [SPHParticle.position SPHParticle.set_position].
    apply snapToFace_not_inside.
  - unfold BoxObstacle.handleCollision. rewrite Hin. exact Hin.
Qed.

(** X6.  Tie-break of the box faces.  For a particle strictly inside
    the box, the face it is put on is at minimal distance and is the
    first, in the order -x, +x, -y, +y, -z, +z, of the faces at that
    distance. *)
Theorem BoxObstacle_face_priority (this : BoxObstacle.t)
    (particle : SPHParticle.t) (damping : R) :
  BoxObstacle.inside this (SPHParticle.position particle) = true ->
  exists f : Face,
    SPHParticle.position (BoxObstacle.handleCollision this particle damping)
      = snapToFace this (SPHParticle.position particle) f /\
    (forall g, faceDistance this (SPHParticle.position particle) f <=
               faceDistance this (SPHParticle.position particle) g) /\
    (forall g, faceDistance this (SPHParticle.position particle) g =
               faceDistance this (SPHParticle.position particle) f ->
               (faceIndex f <= faceIndex g)%nat).
Proof.
  intros Hin.
  destruct (BoxObstacle_handleCollision_selected this particle damping Hin)
    as (f & Hnear & Hfirst & ->).
  exists f. rewrite reflectVelocity_position.
  split; [reflexivity | split; assumption].
Qed.

Lemma unitCube_inside_centre :
  BoxObstacle.inside unitCube (SPHParticle.position particleAtOrigin) = true.
Proof.
  unfold BoxObstacle.inside, unitCube, BoxObstacle.new. simpl.
  repeat (rewrite bool_decide_eq_true_2 by lra). reflexivity.
Qed.

Lemma BoxObstacle_face_priority_witness :
  exists f : Face,
    SPHParticle.position
      (BoxObstacle.handleCollision unitCube particleAtOrigin 0.5)
      = snapToFace unitCube (SPHParticle.position particleAtOrigin) f /\
    (forall g, faceDistance unitCube (SPHParticle.position particleAtOrigin) f
               <= faceDistance unitCube
                    (SPHParticle.position particleAtOrigin) g) /\
    (forall g, faceDistance unitCube (SPHParticle.position particleAtOrigin) g
               = faceDistance unitCube
                   (SPHParticle.position particleAtOrigin) f ->
               (faceIndex f <= faceIndex g)%nat).
Proof.
  apply (BoxObstacle_face_priority unitCube particleAtOrigin 0.5).
  exact unitCube_inside_centre.
Defined.

(** X7.  Box obstacle, particle strictly inside, damping not negative:
    afterwards the velocity has no component against the normal of the
    selected face; when it had one, the squared speed is multiplied by
    [damping * damping], and otherwise the velocity is kept. *)
Theorem BoxObstacle_velocity_response (this : BoxObstacle.t)
    (particle : SPHParticle.t) (damping : R) :
  BoxObstacle.inside this (SPHParticle.position particle) = true ->
  0 <= damping ->
  let v := SPHParticle.velocity particle in
  let particle' := BoxObstacle.handleCollision this particle damping in
  let v' := SPHParticle.velocity particle' in
  exists f : Face,
    SPHParticle.position particle'
      = snapToFace this (SPHParticle.position particle) f /\
    0 <= Vector3.dot v' (faceNormal f) /\
    (Vector3.dot v (faceNormal f) < 0 ->
     Vector3.dot v' v' = damping * damping * Vector3.dot v v) /\
    (~ Vector3.dot v (faceNormal f) < 0 -> v' = v).
Proof.
  intros Hin Hd. cbv zeta.
  destruct (BoxObstacle_handleCollision_selected this particle damping Hin)
    as (f & _ & _ & ->).
  exists f. rewrite reflectVelocity_position.
  split; [reflexivity |].
  apply (reflectVelocity_unit (faceNormal f) damping
           (SPHParticle.set_position particle _)); [| assumption].
  apply faceNormal_unit.
Qed.

Lemma BoxObstacle_velocity_response_witness :
  exists f : Face,
    SPHParticle.position
      (BoxObstacle.handleCollision unitCube particleAtOrigin 0.5)
      = snapToFace unitCube (SPHParticle.position particleAtOrigin) f /\
    0 <= Vector3.dot
           (SPHParticle.velocity
              (BoxObstacle.handleCollision unitCube particleAtOrigin 0.5))
           (faceNormal f) /\
    (Vector3.dot (SPHParticle.velocity particleAtOrigin) (faceNormal f) < 0 ->
     Vector3.dot
       (SPHParticle.velocity
          (BoxObstacle.handleCollision unitCube particleAtOrigin 0.5))
       (SPHParticle.velocity
          (BoxObstacle.handleCollision unitCube particleAtOrigin 0.5))
     = 0.5 * 0.5 *
       Vector3.dot (SPHParticle.velocity particleAtOrigin)
         (SPHParticle.velocity particleAtOrigin)) /\
    (~ Vector3.dot (SPHParticle.velocity particleAtOrigin) (faceNormal f) < 0 ->
     SPHParticle.velocity
       (BoxObstacle.handleCollision unitCube particleAtOrigin 0.5)
     = SPHParticle.velocity particleAtOrigin).
Proof.
  apply (BoxObstacle_velocity_response unitCube particleAtOrigin 0.5).
  - exact unitCube_inside_centre.
  - lra.
Defined.

(** X8.  A box constructed with a size that is not positive on some
    axis has no interior: its [handleCollision] returns every particle
    unchanged. *)
Theorem BoxObstacle_degenerate_inert (position size : Vector3.t)
    (particle : SPHParticle.t) (damping : R) :
  (exists a : Axis, coord a size <= 0) ->
  BoxObstacle.handleCollision (BoxObstacle.new position size) particle damping
  = particle.
Proof.
  intros [a Ha]. unfold BoxObstacle.handleCollision.
  destruct (BoxObstacle.inside (BoxObstacle.new position size)
              (SPHParticle.position particle)) eqn:Hin; [| reflexivity].
  exfalso.
  pose proof (proj1 (BoxObstacle_inside_spec _ _) Hin a) as H.
  destruct a; simpl in *; lra.
Qed.

Lemma BoxObstacle_degenerate_inert_witness :
  BoxObstacle.handleCollision
    (BoxObstacle.new (Vector3.mk 0 0 0) (Vector3.mk 2 0 2))
    particleAtOrigin 0.5
  = particleAtOrigin.
Proof.
  apply (BoxObstacle_degenerate_inert (Vector3.mk 0 0 0) (Vector3.mk 2 0 2)
           particleAtOrigin 0.5).
  exists AxisY. simpl. lra.
Defined.

(** ** Bounding-box walls and the collision pass *)

(** After [handleCollisions], the particle at [i] is the old one taken
    through the walls and then through every obstacle in list order. *)
Lemma handleCollisions_lookup (this : SPHSystem.t) (i : nat) :
  SPHSystem.particles (SPHSystem.handleCollisions this) !! i =
  (fun particle =>
     fold_left
       (fun particle obstacle =>
          Obstacle.handleCollision obstacle particle 0.5)
       (SPHSystem.obstacles this)
       (SPHSystem.collideWalls this 0.5 particle))
    <$> SPHSystem.particles this !! i.
Proof.
  unfold SPHSystem.handleCollisions. cbv zeta.
  cbn [SPHSystem.particles SPHSystem.set_particles].
  apply (forEachParticle_lookup (fun _ : SPHParticle.t => tt)
           (fun _ _ particle =>
              fold_left
                (fun particle obstacle =>
                   Obstacle.handleCollision obstacle particle 0.5)
                (SPHSystem.obstacles this)
                (SPHSystem.collideWalls this 0.5 particle))).
  - intros; reflexivity.
  - intros; reflexivity.
Qed.

Lemma collideWalls_within (this : SPHSystem.t) (damping : R)
    (particle : SPHParticle.t) :
  boxOrdered (SPHSystem.boundingBox this) ->
  withinBox (SPHSystem.boundingBox this)
    (SPHParticle.position (SPHSystem.collideWalls this damping particle)).
Proof.
  intros Hbox a.
  pose proof (Hbox AxisX) as HX. pose proof (Hbox AxisY) as HY.
  pose proof (Hbox AxisZ) as HZ. simpl in HX, HY, HZ.
  unfold SPHSystem.collideWalls. cbv zeta.
  repeat case_decide; destruct a; simpl in *; lra.
Qed.

Lemma collideWalls_fixed (this : SPHSystem.t) (damping : R)
    (particle : SPHParticle.t) :
  withinBox (SPHSystem.boundingBox this) (SPHParticle.position particle) ->
  SPHSystem.collideWalls this damping particle = particle.
Proof.
  intros Hin.
  pose proof (Hin AxisX) as HX. pose proof (Hin AxisY) as HY.
  pose proof (Hin AxisZ) as HZ. simpl in HX, HY, HZ.
  unfold SPHSystem.collideWalls. cbv zeta.
  rewrite (decide_False (P := Vector3.x _ < _)) by lra.
  rewrite (decide_False (P := Vector3.x _ > _)) by lra.
  rewrite (decide_False (P := Vector3.y _ < _)) by lra.
  rewrite (decide_False (P := Vector3.y _ > _)) by lra.
  rewrite (decide_False (P := Vector3.z _ < _)) by lra.
  rewrite (decide_False (P := Vector3.z _ > _)) by lra.
  reflexivity.
Qed.

(** X9.  In a solver without obstacles whose bounding box is not
    inverted, every particle lies in the bounding box after
    [handleCollisions]. *)
Theorem handleCollisions_within_box (this : SPHSystem.t)
    (particle : SPHParticle.t) :
  SPHSystem.obstacles this = [] ->
  boxOrdered (SPHSystem.boundingBox this) ->
  particle ∈ SPHSystem.particles (SPHSystem.handleCollisions this) ->
  withinBox (SPHSystem.boundingBox this) (SPHParticle.position particle).
Proof.
  intros Hobs Hbox Hp.
  apply list_elem_of_lookup_1 in Hp. destruct Hp as [i Hi].
  rewrite handleCollisions_lookup, Hobs in Hi.
  destruct (SPHSystem.particles this !! i) as [p |]; [| discriminate].
  inversion Hi. cbn [fold_left]. apply collideWalls_within, Hbox.
Qed.

Lemma defaultSolver_boxOrdered :
  boxOrdered (SPHSystem.boundingBox solverWithParticleBeyondWall).
Proof. intros a. destruct a; simpl; lra. Qed.

Lemma handleCollisions_within_box_witness :
  exists particle,
    SPHSystem.particles
      (SPHSystem.handleCollisions solverWithParticleBeyondWall) !! 0%nat
      = Some particle /\
    withinBox (SPHSystem.boundingBox solverWithParticleBeyondWall)
      (SPHParticle.position particle).
Proof.
  eexists. split.
  - rewrite handleCollisions_lookup. reflexivity.
  - apply (handleCollisions_within_box solverWithParticleBeyondWall).
    + reflexivity.
    + exact defaultSolver_boxOrdered.
    + apply (list_elem_of_lookup_2 _ 0%nat).
      rewrite handleCollisions_lookup. reflexivity.
Defined.

(** X10.  In a solver without obstacles whose bounding box is not
    inverted, a second [handleCollisions] changes nothing: a particle
    put back on a wall is not damped again. *)
Theorem handleCollisions_idempotent (this : SPHSystem.t) :
  SPHSystem.obstacles this = [] ->
  boxOrdered (SPHSystem.boundingBox this) ->
  SPHSystem.particles
    (SPHSystem.handleCollisions (SPHSystem.handleCollisions this)) =
  SPHSystem.particles (SPHSystem.handleCollisions this).
Proof.
  intros Hobs Hbox. apply list_eq. intros i.
  rewrite handleCollisions_lookup.
  change (SPHSystem.obstacles (SPHSystem.handleCollisions this))
    with (SPHSystem.obstacles this).
  rewrite Hobs. cbn [fold_left].
  destruct (SPHSystem.particles (SPHSystem.handleCollisions this) !! i)
    as [p |] eqn:Hp; [| reflexivity].
  cbn [fmap option_fmap option_map]. f_equal.
  apply (collideWalls_fixed (SPHSystem.handleCollisions this)).
  change (SPHSystem.boundingBox (SPHSystem.handleCollisions this))
    with (SPHSystem.boundingBox this).
  rewrite handleCollisions_lookup, Hobs in Hp.
  destruct (SPHSystem.particles this !! i) as [p0 |]; [| discriminate].
  inversion Hp. cbn [fold_left]. apply collideWalls_within, Hbox.
Qed.

Lemma handleCollisions_idempotent_witness :
  SPHSystem.particles
    (SPHSystem.handleCollisions
       (SPHSystem.handleCollisions solverWithParticleBeyondWall)) =
  SPHSystem.particles
    (SPHSystem.handleCollisions solverWithParticleBeyondWall).
Proof.
  apply (handleCollisions_idempotent solverWithParticleBeyondWall).
  - reflexivity.
  - exact defaultSolver_boxOrdered.
Defined.

Lemma collideWalls_speed (this : SPHSystem.t) (particle : SPHParticle.t) :
  let v := SPHParticle.velocity particle in
  let v' := SPHParticle.velocity (SPHSystem.collideWalls this 0.5 particle) in
  Vector3.dot v' v' <= Vector3.dot v v.
Proof.
  cbv zeta. unfold SPHSystem.collideWalls. cbv zeta.
  destruct (SPHParticle.velocity particle) as [vx vy vz] eqn:Hv.
  pose proof (Rle_0_sqr vx) as Hx. pose proof (Rle_0_sqr vy) as Hy.
  pose proof (Rle_0_sqr vz) as Hz. unfold Rsqr in Hx, Hy, Hz.
  repeat case_decide; unfold Vector3.dot; simpl; rewrite ?Hv; simpl; nra.
Qed.

(** X11.  In a solver without obstacles, [handleCollisions] never
    increases the speed of a particle. *)
Theorem handleCollisions_speed (this : SPHSystem.t) (i : nat)
    (particle particle' : SPHParticle.t) :
  SPHSystem.obstacles this = [] ->
  SPHSystem.particles this !! i = Some particle ->
  SPHSystem.particles (SPHSystem.handleCollisions this) !! i = Some particle' ->
  Vector3.dot (SPHParticle.velocity particle') (SPHParticle.velocity particle')
  <= Vector3.dot (SPHParticle.velocity particle) (SPHParticle.velocity particle).
Proof.
  intros Hobs Hp Hp'.
  rewrite handleCollisions_lookup, Hobs, Hp in Hp'.
  inversion Hp'. cbn [fold_left]. apply collideWalls_speed.
Qed.

Lemma handleCollisions_speed_witness :
  exists particle',
    SPHSystem.particles
      (SPHSystem.handleCollisions solverWithParticleBeyondWall) !! 0%nat
      = Some particle' /\
    Vector3.dot (SPHParticle.velocity particle') (SPHParticle.velocity particle')
    <= Vector3.dot
         (SPHParticle.velocity
            (SPHParticle.new (Vector3.mk (1 + 0.01) 0 0) 1.0))
         (SPHParticle.velocity
            (SPHParticle.new (Vector3.mk (1 + 0.01) 0 0) 1.0)).
Proof.
  eexists. split.
  - rewrite handleCollisions_lookup. reflexivity.
  - apply (handleCollisions_speed solverWithParticleBeyondWall 0).
    + reflexivity.
    + reflexivity.
    + rewrite handleCollisions_lookup. reflexivity.
Defined.

(** ** Neighbour lists *)

Lemma findNeighbors_positions (this : SPHSystem.t) :
  SPHParticle.position <$> SPHSystem.particles (SPHSystem.findNeighbors this)
  = SPHParticle.position <$> SPHSystem.particles this.
Proof.
  unfold SPHSystem.findNeighbors.
  cbn [SPHSystem.particles SPHSystem.set_particles].
  apply (forEachParticle_view SPHParticle.position).
  - intros st st' j p Hv. f_equal. apply scanNeighbors_reads, Hv.
  - intros st j p. reflexivity.
Qed.

Lemma findNeighbors_lookup_Some (this : SPHSystem.t) (i : nat)
    (p' : SPHParticle.t) :
  SPHSystem.particles (SPHSystem.findNeighbors this) !! i = Some p' ->
  exists p,
    SPHSystem.particles this !! i = Some p /\
    p' = SPHParticle.set_neighbors p
           (SPHSystem.scanNeighbors this (SPHSystem.particles this) i p).
Proof.
  rewrite findNeighbors_lookup. intros H.
  destruct (SPHSystem.particles this !! i) as [p |]; [| discriminate].
  inversion H. exists p. split; reflexivity.
Qed.

(** X12.  After [findNeighbors], every entry of the neighbour list of
    the particle stored at [i] refers to another particle of the store,
    records the distance between the two positions, which is at least
    [0] and less than [h], and the normalised direction from the
    particle to that neighbour. *)
Theorem findNeighbors_entries (this : SPHSystem.t) (i : nat)
    (particle : SPHParticle.t) (n : SPHParticle.Neighbor) :
  SPHSystem.particles (SPHSystem.findNeighbors this) !! i = Some particle ->
  n ∈ SPHParticle.neighbors particle ->
  SPHParticle.particle n <> i /\
  exists other,
    SPHSystem.particles (SPHSystem.findNeighbors this)
      !! SPHParticle.particle n = Some other /\
    SPHParticle.distance n =
      Vector3.distanceTo (SPHParticle.position particle)
        (SPHParticle.position other) /\
    0 <= SPHParticle.distance n < SPHSystem.h this /\
    SPHParticle.direction n =
      Vector3.normalize
        (Vector3.sub (SPHParticle.position other)
           (SPHParticle.position particle)).
Proof.
  intros Hp Hn.
  destruct (findNeighbors_lookup_Some this i particle Hp) as (p & Hlook & ->).
  cbn [SPHParticle.neighbors SPHParticle.set_neighbors] in Hn.
  apply elem_of_scanNeighbors in Hn.
  destruct Hn as (j & other & Hj & Hij & Hd & ->).
  cbn [SPHParticle.particle SPHParticle.distance SPHParticle.direction
       SPHParticle.position SPHParticle.set_neighbors].
  split; [congruence |].
  eexists. split; [rewrite findNeighbors_lookup, Hj; reflexivity |].
  cbn [SPHParticle.position SPHParticle.set_neighbors].
  split; [reflexivity |]. split; [| reflexivity].
  split; [apply Vector3_distanceTo_nonneg | exact Hd].
Qed.

Lemma twoParticle_neighbor_entry :
  SPHParticle.mkNeighbor 1
    (Vector3.distanceTo (Vector3.mk 0 0 0) (Vector3.mk 0.1 0 0))
    (Vector3.normalize (Vector3.sub (Vector3.mk 0.1 0 0) (Vector3.mk 0 0 0)))
  ∈ SPHSystem.scanNeighbors twoParticleSolver
      (SPHSystem.particles twoParticleSolver) 0
      (particleAt (Vector3.mk 0 0 0)).
Proof.
  apply elem_of_scanNeighbors.
  exists 1%nat, (particleAt (Vector3.mk 0.1 0 0)).
  split; [reflexivity |]. split; [lia |]. split; [| reflexivity].
  unfold Vector3.distanceTo, Vector3.distanceToSquared. simpl.
  replace ((0 - 0.1) * (0 - 0.1) + (0 - 0) * (0 - 0) + (0 - 0) * (0 - 0))
    with (0.1 * 0.1) by ring.
  rewrite sqrt_square by lra. lra.
Qed.

Lemma findNeighbors_entries_witness :
  (1 <> 0)%nat /\
  exists other,
    SPHSystem.particles (SPHSystem.findNeighbors twoParticleSolver) !! 1%nat
      = Some other /\
    Vector3.distanceTo (Vector3.mk 0 0 0) (Vector3.mk 0.1 0 0) =
      Vector3.distanceTo (Vector3.mk 0 0 0) (SPHParticle.position other) /\
    0 <= Vector3.distanceTo (Vector3.mk 0 0 0) (Vector3.mk 0.1 0 0)
      < SPHSystem.h twoParticleSolver /\
    Vector3.normalize (Vector3.sub (Vector3.mk 0.1 0 0) (Vector3.mk 0 0 0)) =
      Vector3.normalize
        (Vector3.sub (SPHParticle.position other) (Vector3.mk 0 0 0)).
Proof.
  apply (findNeighbors_entries twoParticleSolver 0
           (SPHParticle.set_neighbors (particleAt (Vector3.mk 0 0 0))
              (SPHSystem.scanNeighbors twoParticleSolver
                 (SPHSystem.particles twoParticleSolver) 0
                 (particleAt (Vector3.mk 0 0 0))))
           (SPHParticle.mkNeighbor 1
              (Vector3.distanceTo (Vector3.mk 0 0 0) (Vector3.mk 0.1 0 0))
              (Vector3.normalize
                 (Vector3.sub (Vector3.mk 0.1 0 0) (Vector3.mk 0 0 0))))).
  - rewrite findNeighbors_lookup. reflexivity.
  - exact twoParticle_neighbor_entry.
Defined.

Lemma scan_indices_from (this : SPHSystem.t) (i : nat)
    (particle : SPHParticle.t) (st : list SPHParticle.t) (k : nat) :
  let l := omap (neighborEntry this i particle)
             (imap (fun j o => ((k + j)%nat, o)) st) in
  Forall (fun n => (k <= SPHParticle.particle n)%nat) l /\
  NoDup (SPHParticle.particle <$> l).
Proof.
  cbv zeta. revert k. induction st as [| o st IH]; intros k.
  - split; constructor.
  - rewrite imap_cons.
    rewrite (imap_ext _ (fun j o0 => ((S k + j)%nat, o0)))
      by (intros j x _; unfold compose; f_equal; lia).
    destruct (IH (S k)) as [IHge IHnd].
    set (rest := omap (neighborEntry this i particle)
                   (imap (fun j o0 => ((S k + j)%nat, o0)) st)) in *.
    change (omap (neighborEntry this i particle)
              (((k + 0)%nat, o) :: imap (fun j o0 => ((S k + j)%nat, o0)) st))
      with (match neighborEntry this i particle ((k + 0)%nat, o) with
            | Some n => n :: rest
            | None => rest
            end).
    assert (Hrest : Forall (fun n => (k <= SPHParticle.particle n)%nat) rest).
    { eapply Forall_impl; [exact IHge |]. intros n Hn. simpl in Hn. lia. }
    destruct (neighborEntry this i particle ((k + 0)%nat, o)) as [n0 |] eqn:He.
    + assert (Hn0 : SPHParticle.particle n0 = (k + 0)%nat).
      { unfold neighborEntry in He. cbn [fst snd] in He.
        case_decide; [| discriminate]. inversion He. reflexivity. }
      split.
      * constructor; [lia | exact Hrest].
      * cbn [fmap list_fmap]. constructor; [| exact IHnd]. intros Hin.
        apply list_elem_of_fmap in Hin. destruct Hin as (n & Hn & Hin).
        rewrite Forall_forall in IHge. specialize (IHge n Hin). lia.
    + split; assumption.
Qed.

(** X13.  After [findNeighbors], no particle is listed twice in a
    neighbour list. *)
Theorem findNeighbors_NoDup (this : SPHSystem.t) (i : nat)
    (particle : SPHParticle.t) :
  SPHSystem.particles (SPHSystem.findNeighbors this) !! i = Some particle ->
  NoDup (SPHParticle.particle <$> SPHParticle.neighbors particle).
Proof.
  intros Hp.
  destruct (findNeighbors_lookup_Some this i particle Hp) as (p & _ & ->).
  cbn [SPHParticle.neighbors SPHParticle.set_neighbors].
  rewrite scanNeighbors_omap.
  apply (scan_indices_from this i p (SPHSystem.particles this) 0).
Qed.

Lemma findNeighbors_NoDup_witness :
  NoDup
    (SPHParticle.particle <$>
     SPHParticle.neighbors
       (SPHParticle.set_neighbors (particleAt (Vector3.mk 0 0 0))
          (SPHSystem.scanNeighbors twoParticleSolver
             (SPHSystem.particles twoParticleSolver) 0
             (particleAt (Vector3.mk 0 0 0))))).
Proof.
  apply (findNeighbors_NoDup twoParticleSolver 0).
  rewrite findNeighbors_lookup. reflexivity.
Defined.

(** X14.  With a smoothing radius that is not positive (the constructor
    accepts a negative one), [findNeighbors] gives every particle an
    empty neighbour list. *)
Theorem findNeighbors_nonpositive_radius (this : SPHSystem.t)
    (particle : SPHParticle.t) :
  SPHSystem.h this <= 0 ->
  particle ∈ SPHSystem.particles (SPHSystem.findNeighbors this) ->
  SPHParticle.neighbors particle = [].
Proof.
  intros Hh Hp.
  apply list_elem_of_lookup_1 in Hp. destruct Hp as [i Hi].
  destruct (findNeighbors_lookup_Some this i particle Hi) as (p & _ & ->).
  cbn [SPHParticle.neighbors SPHParticle.set_neighbors].
  apply elem_of_nil_inv. intros n Hn.
  apply elem_of_scanNeighbors in Hn.
  destruct Hn as (j & other & _ & _ & Hd & _).
  pose proof (Vector3_distanceTo_nonneg (SPHParticle.position p)
                (SPHParticle.position other)).
  lra.
Qed.

Lemma findNeighbors_nonpositive_radius_witness :
  exists particle,
    SPHSystem.particles (SPHSystem.findNeighbors negativeRadiusSolver)
      !! 0%nat = Some particle /\
    SPHParticle.neighbors particle = [].
Proof.
  eexists. split.
  - rewrite findNeighbors_lookup. reflexivity.
  - apply (findNeighbors_nonpositive_radius negativeRadiusSolver).
    + simpl. unfold js_or. case_decide; lra.
    + apply (list_elem_of_lookup_2 _ 0%nat).
      rewrite findNeighbors_lookup. reflexivity.
Defined.

(** ** Isolated particles *)

Lemma scanNeighbors_isolated (this : SPHSystem.t) (i : nat)
    (p : SPHParticle.t) :
  isolated this i p ->
  SPHSystem.scanNeighbors this (SPHSystem.particles this) i p = [].
Proof.
  intros Hiso. apply elem_of_nil_inv. intros n Hn.
  apply elem_of_scanNeighbors in Hn.
  destruct Hn as (j & other & Hj & Hij & Hd & _).
  apply (Hiso j other Hj); [congruence | exact Hd].
Qed.

(** The particle at [i] after the neighbour, density and force passes. *)
Lemma forcePasses_lookup (this : SPHSystem.t) (i : nat) (p : SPHParticle.t) :
  SPHSystem.particles this !! i = Some p ->
  let this1 := SPHSystem.findNeighbors this in
  let this2 := SPHSystem.computeDensityPressure this1 in
  let p1 := SPHParticle.set_neighbors p
              (SPHSystem.scanNeighbors this (SPHSystem.particles this) i p) in
  let p2 := SPHSystem.densityPressureOf this1 (SPHSystem.particles this1) p1 in
  SPHSystem.particles this1 !! i = Some p1 /\
  SPHSystem.particles this2 !! i = Some p2 /\
  SPHSystem.particles (forcePasses this) !! i =
    Some (SPHSystem.forcesOf this2 (SPHSystem.particles this2) p2).
Proof.
  intros Hp. cbv zeta.
  assert (H1 : SPHSystem.particles (SPHSystem.findNeighbors this) !! i =
    Some (SPHParticle.set_neighbors p
            (SPHSystem.scanNeighbors this (SPHSystem.particles this) i p)))
    by (rewrite findNeighbors_lookup, Hp; reflexivity).
  assert (H2 : SPHSystem.particles
      (SPHSystem.computeDensityPressure (SPHSystem.findNeighbors this)) !! i =
    Some (SPHSystem.densityPressureOf (SPHSystem.findNeighbors this)
            (SPHSystem.particles (SPHSystem.findNeighbors this))
            (SPHParticle.set_neighbors p
               (SPHSystem.scanNeighbors this (SPHSystem.particles this) i p))))
    by (rewrite computeDensityPressure_lookup, H1; reflexivity).
  split; [exact H1 |]. split; [exact H2 |].
  unfold forcePasses. rewrite computeForces_lookup, H2. reflexivity.
Qed.

Lemma poly6Kernel_self (this : SPHSystem.t) :
  kernelConstants this ->
  0 < SPHSystem.h this ->
  SPHSystem.poly6Kernel this 0 (SPHSystem.h this) =
  315 / (64 * PI * SPHSystem.h this ^ 3).
Proof.
  intros [Hk _] Hh. unfold SPHSystem.poly6Kernel.
  rewrite decide_False by lra. cbv zeta. rewrite Hk.
  pose proof PI_RGT_0.
  replace 315.0 with 315 by lra. replace 64.0 with 64 by lra.
  field. split; lra.
Qed.

(** X15.  Density of an isolated particle.  In a solver whose kernel
    constants are those derived from a positive [h], a particle with no
    other particle closer than [h] gets, from [findNeighbors] and
    [computeDensityPressure], an empty neighbour list, the density
    [mass * 315 / (64 * PI * h^3)] of its self term and the pressure the
    equation of state gives for it. *)
Theorem isolated_density (this : SPHSystem.t) (i : nat) (p : SPHParticle.t) :
  kernelConstants this ->
  0 < SPHSystem.h this ->
  SPHSystem.particles this !! i = Some p ->
  isolated this i p ->
  exists p',
    SPHSystem.particles
      (SPHSystem.computeDensityPressure (SPHSystem.findNeighbors this)) !! i
      = Some p' /\
    SPHParticle.neighbors p' = [] /\
    SPHParticle.density p' =
      SPHParticle.mass p * (315 / (64 * PI * SPHSystem.h this ^ 3)) /\
    SPHParticle.pressure p' =
      SPHSystem.gasConstant this *
      (SPHParticle.mass p * (315 / (64 * PI * SPHSystem.h this ^ 3))
       - SPHSystem.restDensity this).
Proof.
  intros Hk Hh Hp Hiso.
  destruct (forcePasses_lookup this i p Hp) as (_ & H2 & _).
  eexists. split; [exact H2 |].
  rewrite (scanNeighbors_isolated this i p Hiso).
  unfold SPHSystem.densityPressureOf. cbv zeta.
  cbn [SPHParticle.neighbors SPHParticle.set_neighbors SPHParticle.density
       SPHParticle.pressure SPHParticle.set_density SPHParticle.set_pressure
       SPHParticle.mass fold_left].
  change (SPHSystem.poly6Kernel (SPHSystem.findNeighbors this) 0
            (SPHSystem.h (SPHSystem.findNeighbors this)))
    with (SPHSystem.poly6Kernel this 0 (SPHSystem.h this)).
  rewrite (poly6Kernel_self this Hk Hh).
  split; [reflexivity |]. split; [ring |].
  change (SPHSystem.gasConstant (SPHSystem.findNeighbors this))
    with (SPHSystem.gasConstant this).
  change (SPHSystem.restDensity (SPHSystem.findNeighbors this))
    with (SPHSystem.restDensity this).
  ring.
Qed.

Lemma farApart_isolated :
  isolated farApartSolver 0 (particleAt (Vector3.mk 0 0 0)).
Proof.
  intros j other Hj Hne.
  destruct j as [| [| j]]; [congruence | | discriminate Hj].
  inversion Hj. subst other.
  unfold Vector3.distanceTo, Vector3.distanceToSquared. simpl.
  replace ((0 - 0.5) * (0 - 0.5) + (0 - 0) * (0 - 0) + (0 - 0) * (0 - 0))
    with (0.5 * 0.5) by ring.
  rewrite sqrt_square by lra. lra.
Qed.

Lemma isolated_density_witness :
  exists p',
    SPHSystem.particles
      (SPHSystem.computeDensityPressure (SPHSystem.findNeighbors farApartSolver))
      !! 0%nat = Some p' /\
    SPHParticle.neighbors p' = [] /\
    SPHParticle.density p' =
      SPHParticle.mass (particleAt (Vector3.mk 0 0 0)) *
      (315 / (64 * PI * SPHSystem.h farApartSolver ^ 3)) /\
    SPHParticle.pressure p' =
      SPHSystem.gasConstant farApartSolver *
      (SPHParticle.mass (particleAt (Vector3.mk 0 0 0)) *
       (315 / (64 * PI * SPHSystem.h farApartSolver ^ 3))
       - SPHSystem.restDensity farApartSolver).
Proof.
  apply (isolated_density farApartSolver 0 (particleAt (Vector3.mk 0 0 0))).
  - repeat split; reflexivity.
  - simpl. lra.
  - reflexivity.
  - exact farApart_isolated.
Defined.

(** X16.  Weight of an isolated particle.  After the neighbour, density
    and force passes, a particle with no other particle closer than [h]
    carries the force [gravity * mass] and nothing else, whatever force
    it carried before. *)
Theorem isolated_force (this : SPHSystem.t) (i : nat) (p : SPHParticle.t) :
  SPHSystem.particles this !! i = Some p ->
  isolated this i p ->
  exists p',
    SPHSystem.particles (forcePasses this) !! i = Some p' /\
    SPHParticle.force p' =
      Vector3.multiplyScalar (SPHSystem.gravity this) (SPHParticle.mass p).
Proof.
  intros Hp Hiso.
  destruct (forcePasses_lookup this i p Hp) as (_ & _ & H3).
  eexists. split; [exact H3 |].
  rewrite forcesOf_force. cbv zeta.
  rewrite (scanNeighbors_isolated this i p Hiso).
  unfold SPHSystem.neighborForces.
  cbn [SPHParticle.neighbors SPHSystem.densityPressureOf
       SPHParticle.set_pressure SPHParticle.set_density
       SPHParticle.set_neighbors fold_left SPHSystem.surfaceNormal
       SPHSystem.pressureForce SPHSystem.viscosityForce
       SPHSystem.colorFieldLaplacian SPHParticle.mass].
  change (Vector3.mk 0 0 0) with Vector3.zero.
  rewrite Vector3_normalize_zero.
  change (SPHSystem.gravity
            (SPHSystem.computeDensityPressure (SPHSystem.findNeighbors this)))
    with (SPHSystem.gravity this).
  destruct (SPHSystem.gravity this) as [gx gy gz].
  case_decide; unfold Vector3.add, Vector3.multiplyScalar, Vector3.zero;
    simpl; f_equal; ring.
Qed.

Lemma isolated_force_witness :
  exists p',
    SPHSystem.particles (forcePasses farApartSolver) !! 0%nat = Some p' /\
    SPHParticle.force p' =
      Vector3.multiplyScalar (SPHSystem.gravity farApartSolver)
        (SPHParticle.mass (particleAt (Vector3.mk 0 0 0))).
Proof.
  apply (isolated_force farApartSolver 0 (particleAt (Vector3.mk 0 0 0))).
  - reflexivity.
  - exact farApart_isolated.
Defined.

(** ** Recomputation *)

Lemma computeDensityPressure_masses (this : SPHSystem.t) :
  SPHParticle.mass <$>
    SPHSystem.particles (SPHSystem.computeDensityPressure this)
  = SPHParticle.mass <$> SPHSystem.particles this.
Proof.
  unfold SPHSystem.computeDensityPressure.
  cbn [SPHSystem.particles SPHSystem.set_particles].
  apply (forEachParticle_view SPHParticle.mass
           (fun st _ particle => SPHSystem.densityPressureOf this st particle)).
  - intros st st' j p Hv. apply densityPressureOf_reads, Hv.
  - intros st j p. reflexivity.
Qed.

Lemma computeForces_forceView (this : SPHSystem.t) :
  forceView <$> SPHSystem.particles (SPHSystem.computeForces this)
  = forceView <$> SPHSystem.particles this.
Proof.
  unfold SPHSystem.computeForces.
  cbn [SPHSystem.particles SPHSystem.set_particles].
  apply (forEachParticle_view forceView
           (fun st _ particle => SPHSystem.forcesOf this st particle)).
  - intros st st' j p Hv. apply forcesOf_reads, Hv.
  - intros st j p. apply forcesOf_keeps.
Qed.

Lemma forcesOf_set_force (this : SPHSystem.t) (st : list SPHParticle.t)
    (p : SPHParticle.t) :
  SPHSystem.forcesOf this st p =
  SPHParticle.set_force p (SPHParticle.force (SPHSystem.forcesOf this st p)).
Proof. unfold SPHSystem.forcesOf. cbv zeta. case_decide; reflexivity. Qed.

Lemma forcesOf_resets (this : SPHSystem.t) (st : list SPHParticle.t)
    (p : SPHParticle.t) (f : Vector3.t) :
  SPHSystem.forcesOf this st (SPHParticle.set_force p f) =
  SPHSystem.forcesOf this st p.
Proof. reflexivity. Qed.

(** X17.  Each of the passes [findNeighbors], [computeDensityPressure]
    and [computeForces] recomputes what it writes from scratch: running
    the pass a second time gives the same solver as running it once, so
    neighbour lists, densities and forces do not pile up from call to
    call. *)
Theorem passes_idempotent (this : SPHSystem.t) :
  SPHSystem.findNeighbors (SPHSystem.findNeighbors this)
    = SPHSystem.findNeighbors this /\
  SPHSystem.computeDensityPressure (SPHSystem.computeDensityPressure this)
    = SPHSystem.computeDensityPressure this /\
  SPHSystem.computeForces (SPHSystem.computeForces this)
    = SPHSystem.computeForces this.
Proof.
  assert (Hsys : forall (a b : SPHSystem.t),
            SPHSystem.set_particles a [] = SPHSystem.set_particles b [] ->
            SPHSystem.particles a = SPHSystem.particles b -> a = b).
  { intros [] [] H1 H2. simpl in *. inversion H1. subst. reflexivity. }
  split; [| split]; apply Hsys; try reflexivity; apply list_eq; intros i.
  - rewrite findNeighbors_lookup.
    destruct (SPHSystem.particles (SPHSystem.findNeighbors this) !! i)
      as [p1 |] eqn:Hp1; [| reflexivity].
    destruct (findNeighbors_lookup_Some this i p1 Hp1) as (p & _ & ->).
    cbn [fmap option_fmap option_map]. f_equal.
    rewrite (scanNeighbors_reads (SPHSystem.findNeighbors this) _
               (SPHSystem.particles this))
      by apply findNeighbors_positions.
    reflexivity.
  - rewrite computeDensityPressure_lookup.
    destruct (SPHSystem.particles (SPHSystem.computeDensityPressure this) !! i)
      as [p1 |] eqn:Hp1; [| reflexivity].
    rewrite computeDensityPressure_lookup in Hp1.
    destruct (SPHSystem.particles this !! i) as [p |]; [| discriminate].
    inversion Hp1 as [Heq]. rewrite Heq.
    cbn [fmap option_fmap option_map]. f_equal.
    rewrite (densityPressureOf_reads (SPHSystem.computeDensityPressure this) _
               (SPHSystem.particles this))
      by apply computeDensityPressure_masses.
    rewrite <- Heq. reflexivity.
  - rewrite computeForces_lookup.
    destruct (SPHSystem.particles (SPHSystem.computeForces this) !! i)
      as [p1 |] eqn:Hp1; [| reflexivity].
    rewrite computeForces_lookup in Hp1.
    destruct (SPHSystem.particles this !! i) as [p |]; [| discriminate].
    inversion Hp1 as [Heq]. clear Hp1. subst p1.
    cbn [fmap option_fmap option_map]. f_equal.
    rewrite (forcesOf_reads (SPHSystem.computeForces this) _
               (SPHSystem.particles this))
      by apply computeForces_forceView.
    transitivity
      (SPHSystem.forcesOf this (SPHSystem.particles this)
         (SPHParticle.set_force p
            (SPHParticle.force
               (SPHSystem.forcesOf this (SPHSystem.particles this) p))));
      [| reflexivity].
    rewrite <- forcesOf_set_force. reflexivity.
Qed.

(** ** Two particles: internal forces cancel *)

Lemma Vector3_length_negate (a : Vector3.t) :
  Vector3.length (Vector3.negate a) = Vector3.length a.
Proof.
  unfold Vector3.length, Vector3.negate. simpl. f_equal. ring.
Qed.

Lemma Vector3_normalize_negate (a : Vector3.t) :
  Vector3.normalize (Vector3.negate a) = Vector3.negate (Vector3.normalize a).
Proof.
  unfold Vector3.normalize. rewrite Vector3_length_negate.
  unfold Vector3.divideScalar, Vector3.multiplyScalar, Vector3.negate. simpl.
  f_equal; ring.
Qed.

(** When the accumulators of two particles of equal mass are opposite
    (and their colour-field Laplacians equal), the two forces add up to
    the two weights. *)
Lemma forcesOf_cancel (this : SPHSystem.t) (st : list SPHParticle.t)
    (pA pB : SPHParticle.t) :
  SPHParticle.mass pA = SPHParticle.mass pB ->
  SPHSystem.pressureForce (SPHSystem.neighborForces this st pB) =
    Vector3.negate (SPHSystem.pressureForce (SPHSystem.neighborForces this st pA)) ->
  SPHSystem.viscosityForce (SPHSystem.neighborForces this st pB) =
    Vector3.negate (SPHSystem.viscosityForce (SPHSystem.neighborForces this st pA)) ->
  SPHSystem.surfaceNormal (SPHSystem.neighborForces this st pB) =
    Vector3.negate (SPHSystem.surfaceNormal (SPHSystem.neighborForces this st pA)) ->
  SPHSystem.colorFieldLaplacian (SPHSystem.neighborForces this st pB) =
    SPHSystem.colorFieldLaplacian (SPHSystem.neighborForces this st pA) ->
  Vector3.add (SPHParticle.force (SPHSystem.forcesOf this st pA))
              (SPHParticle.force (SPHSystem.forcesOf this st pB)) =
  Vector3.multiplyScalar (SPHSystem.gravity this)
    (SPHParticle.mass pA + SPHParticle.mass pB).
Proof.
  intros Hm Hpf Hvf Hsn Hcl.
  rewrite !forcesOf_force. cbv zeta.
  rewrite Hpf, Hvf, Hsn, Hcl, Vector3_length_negate, Vector3_normalize_negate.
  rewrite <- Hm.
  destruct (SPHSystem.gravity this) as [gx gy gz].
  destruct (SPHSystem.pressureForce _) as [px py pz].
  destruct (SPHSystem.viscosityForce _) as [wx wy wz].
  destruct (Vector3.normalize _) as [nx ny nz].
  case_decide; unfold Vector3.add, Vector3.multiplyScalar, Vector3.negate,
    Vector3.zero; simpl; f_equal; ring.
Qed.

(** X18.  In a solver whose particles are [A] and [B], of equal mass,
    after the neighbour, density and force passes the two forces add up
    to [gravity * (mass A + mass B)]: the pressure, viscosity and
    surface-tension forces of the pair cancel. *)
Theorem pair_forces_cancel (this : SPHSystem.t) (A B : SPHParticle.t) :
  SPHSystem.particles this = [A; B] ->
  SPHParticle.mass A = SPHParticle.mass B ->
  exists A' B',
    SPHSystem.particles (forcePasses this) = [A'; B'] /\
    Vector3.add (SPHParticle.force A') (SPHParticle.force B') =
    Vector3.multiplyScalar (SPHSystem.gravity this)
      (SPHParticle.mass A + SPHParticle.mass B).
Proof.
  intros Hps Hmass.
  set (this1 := SPHSystem.findNeighbors this).
  set (this2 := SPHSystem.computeDensityPressure this1).
  assert (H1 : SPHSystem.particles this1 =
    [SPHParticle.set_neighbors A (SPHSystem.scanNeighbors this [A; B] 0 A);
     SPHParticle.set_neighbors B (SPHSystem.scanNeighbors this [A; B] 1 B)]).
  { apply list_eq. intros [| [| i]]; unfold this1;
      rewrite findNeighbors_lookup, Hps; reflexivity. }
  set (d := Vector3.distanceTo (SPHParticle.position A) (SPHParticle.position B)).
  set (dir := Vector3.normalize
                (Vector3.sub (SPHParticle.position B) (SPHParticle.position A))).
  assert (HsA : SPHSystem.scanNeighbors this [A; B] 0 A =
                if decide (d < SPHSystem.h this)
                then [SPHParticle.mkNeighbor 1 d dir] else []).
  { unfold SPHSystem.scanNeighbors. cbn [imap fold_left compose].
    rewrite (decide_True (P := 0%nat = 0%nat)) by reflexivity.
    rewrite (decide_False (P := 0%nat = 1%nat)) by lia.
    fold d dir. reflexivity. }
  assert (HsB : SPHSystem.scanNeighbors this [A; B] 1 B =
                if decide (d < SPHSystem.h this)
                then [SPHParticle.mkNeighbor 0 d (Vector3.negate dir)] else []).
  { unfold SPHSystem.scanNeighbors. cbn [imap fold_left compose].
    rewrite (decide_False (P := 1%nat = 0%nat)) by lia.
    rewrite (decide_True (P := 1%nat = 1%nat)) by reflexivity.
    rewrite (Vector3_distanceTo_sym (SPHParticle.position B)).
    rewrite (Vector3_normalize_sub_negate (SPHParticle.position A)).
    fold d dir. reflexivity. }
  rewrite HsA, HsB in H1. clear HsA HsB.
  set (nsA := if decide (d < SPHSystem.h this)
              then [SPHParticle.mkNeighbor 1 d dir] else []) in *.
  set (nsB := if decide (d < SPHSystem.h this)
              then [SPHParticle.mkNeighbor 0 d (Vector3.negate dir)] else [])
    in *.
  set (A1 := SPHParticle.set_neighbors A nsA) in *.
  set (B1 := SPHParticle.set_neighbors B nsB) in *.
  set (A2 := SPHSystem.densityPressureOf this1 [A1; B1] A1).
  set (B2 := SPHSystem.densityPressureOf this1 [A1; B1] B1).
  assert (H2 : SPHSystem.particles this2 = [A2; B2]).
  { apply list_eq. intros [| [| i]]; unfold this2;
      rewrite computeDensityPressure_lookup, H1; reflexivity. }
  assert (H3 : SPHSystem.particles (forcePasses this) =
    [SPHSystem.forcesOf this2 [A2; B2] A2;
     SPHSystem.forcesOf this2 [A2; B2] B2]).
  { apply list_eq. intros [| [| i]]; unfold forcePasses;
      rewrite computeForces_lookup; fold this1 this2; rewrite H2; reflexivity. }
  eexists. eexists. split; [exact H3 |].
  change (SPHSystem.gravity this) with (SPHSystem.gravity this2).
  change (SPHParticle.mass A) with (SPHParticle.mass A2).
  change (SPHParticle.mass B) with (SPHParticle.mass B2).
  assert (Hrho : SPHParticle.density A2 = SPHParticle.density B2).
  { unfold A2, B2, SPHSystem.densityPressureOf. cbv zeta.
    cbn [SPHParticle.density SPHParticle.set_pressure SPHParticle.set_density].
    change (SPHParticle.neighbors A1) with nsA.
    change (SPHParticle.neighbors B1) with nsB.
    change (SPHParticle.mass A1) with (SPHParticle.mass A).
    change (SPHParticle.mass B1) with (SPHParticle.mass B).
    unfold nsA, nsB. destruct (decide (d < SPHSystem.h this)).
    - cbn [fold_left].
      change ([A1; B1] !! SPHParticle.particle (SPHParticle.mkNeighbor 1 d dir))
        with (Some B1).
      change ([A1; B1] !!
                SPHParticle.particle
                  (SPHParticle.mkNeighbor 0 d (Vector3.negate dir)))
        with (Some A1).
      cbv beta iota.
      change (SPHParticle.mass A1) with (SPHParticle.mass A).
      change (SPHParticle.mass B1) with (SPHParticle.mass B).
      cbn [SPHParticle.distance]. rewrite Hmass. reflexivity.
    - cbn [fold_left]. rewrite Hmass. reflexivity. }
  assert (Hp : SPHParticle.pressure A2 = SPHParticle.pressure B2).
  { change (SPHParticle.pressure A2)
      with (SPHSystem.gasConstant this1 *
            (SPHParticle.density A2 - SPHSystem.restDensity this1)).
    change (SPHParticle.pressure B2)
      with (SPHSystem.gasConstant this1 *
            (SPHParticle.density B2 - SPHSystem.restDensity this1)).
    rewrite Hrho. reflexivity. }
  assert (Hm : SPHParticle.mass A2 = SPHParticle.mass B2) by exact Hmass.
  assert (Hacc :
    let aA := SPHSystem.neighborForces this2 [A2; B2] A2 in
    let aB := SPHSystem.neighborForces this2 [A2; B2] B2 in
    SPHSystem.pressureForce aB = Vector3.negate (SPHSystem.pressureForce aA) /\
    SPHSystem.viscosityForce aB = Vector3.negate (SPHSystem.viscosityForce aA) /\
    SPHSystem.surfaceNormal aB = Vector3.negate (SPHSystem.surfaceNormal aA) /\
    SPHSystem.colorFieldLaplacian aB = SPHSystem.colorFieldLaplacian aA).
  { cbv zeta. unfold SPHSystem.neighborForces.
    change (SPHParticle.neighbors A2) with nsA.
    change (SPHParticle.neighbors B2) with nsB.
    unfold nsA, nsB. destruct (decide (d < SPHSystem.h this)).
    - cbn [fold_left]. unfold SPHSystem.accumulate.
      change ([A2; B2] !! SPHParticle.particle (SPHParticle.mkNeighbor 1 d dir))
        with (Some B2).
      change ([A2; B2] !!
                SPHParticle.particle
                  (SPHParticle.mkNeighbor 0 d (Vector3.negate dir)))
        with (Some A2).
      cbv beta iota zeta.
      cbn [SPHSystem.pressureForce SPHSystem.viscosityForce
           SPHSystem.surfaceNormal SPHSystem.colorFieldLaplacian
           SPHParticle.direction SPHParticle.distance].
      rewrite spikyGradKernel_negate, Hrho, Hp, Hm.
      generalize (SPHSystem.spikyGradKernel this2 d (SPHSystem.h this2) dir).
      intros [Gx Gy Gz].
      destruct (SPHParticle.velocity A2) as [ax ay az].
      destruct (SPHParticle.velocity B2) as [bx by' bz].
      unfold Vector3.negate, Vector3.add, Vector3.sub, Vector3.multiplyScalar.
      simpl. repeat split; try (f_equal; ring).
    - cbn [fold_left SPHSystem.pressureForce SPHSystem.viscosityForce
           SPHSystem.surfaceNormal SPHSystem.colorFieldLaplacian].
      rewrite Vector3_negate_zero. repeat split. }
  cbv zeta in Hacc. destruct Hacc as (Hpf & Hvf & Hsn & Hcl).
  apply (forcesOf_cancel this2 [A2; B2] A2 B2 Hm Hpf Hvf Hsn Hcl).
Qed.

Lemma pair_forces_cancel_witness :
  exists A' B',
    SPHSystem.particles (forcePasses twoParticleSolver) = [A'; B'] /\
    Vector3.add (SPHParticle.force A') (SPHParticle.force B') =
    Vector3.multiplyScalar (SPHSystem.gravity twoParticleSolver)
      (SPHParticle.mass (particleAt (Vector3.mk 0 0 0)) +
       SPHParticle.mass (particleAt (Vector3.mk 0.1 0 0))).
Proof.
  apply (pair_forces_cancel twoParticleSolver
           (particleAt (Vector3.mk 0 0 0)) (particleAt (Vector3.mk 0.1 0 0)));
    reflexivity.
Defined.

(** ** Integration and the whole step *)

(** X19.  [SPHParticle.update] for a particle of non-zero mass: the
    change of momentum is the impulse, [mass * (v' - v) = force * dt];
    the position advances by the new velocity, [x' = x + v' * dt]; mass
    and force are kept. *)
Theorem SPHParticle_update_impulse (p : SPHParticle.t) (dt : R) :
  SPHParticle.mass p <> 0 ->
  let p' := SPHParticle.update p dt in
  Vector3.multiplyScalar
    (Vector3.sub (SPHParticle.velocity p') (SPHParticle.velocity p))
    (SPHParticle.mass p)
  = Vector3.multiplyScalar (SPHParticle.force p) dt /\
  SPHParticle.position p' =
    Vector3.add (SPHParticle.position p)
      (Vector3.multiplyScalar (SPHParticle.velocity p') dt) /\
  SPHParticle.mass p' = SPHParticle.mass p /\
  SPHParticle.force p' = SPHParticle.force p.
Proof.
  intros Hm. cbv zeta. unfold SPHParticle.update. cbv zeta.
  cbn [SPHParticle.velocity SPHParticle.position SPHParticle.mass
       SPHParticle.force SPHParticle.acceleration SPHParticle.set_position
       SPHParticle.set_velocity SPHParticle.set_acceleration].
  repeat split.
  unfold Vector3.multiplyScalar, Vector3.sub, Vector3.add,
    Vector3.divideScalar. simpl. f_equal; field; assumption.
Qed.

Lemma SPHParticle_update_impulse_witness :
  Vector3.multiplyScalar
    (Vector3.sub
       (SPHParticle.velocity (SPHParticle.update particleOffCentre 0.004))
       (SPHParticle.velocity particleOffCentre))
    (SPHParticle.mass particleOffCentre)
  = Vector3.multiplyScalar (SPHParticle.force particleOffCentre) 0.004 /\
  SPHParticle.position (SPHParticle.update particleOffCentre 0.004) =
    Vector3.add (SPHParticle.position particleOffCentre)
      (Vector3.multiplyScalar
         (SPHParticle.velocity (SPHParticle.update particleOffCentre 0.004))
         0.004) /\
  SPHParticle.mass (SPHParticle.update particleOffCentre 0.004)
    = SPHParticle.mass particleOffCentre /\
  SPHParticle.force (SPHParticle.update particleOffCentre 0.004)
    = SPHParticle.force particleOffCentre.
Proof.
  apply (SPHParticle_update_impulse particleOffCentre 0.004). simpl. lra.
Defined.

Lemma masses_of_pass (l l' : list SPHParticle.t)
    (f : nat -> SPHParticle.t -> SPHParticle.t) :
  (forall i, l' !! i = f i <$> l !! i) ->
  (forall i p, SPHParticle.mass (f i p) = SPHParticle.mass p) ->
  SPHParticle.mass <$> l' = SPHParticle.mass <$> l.
Proof.
  intros Hl Hf. apply list_eq. intros i.
  rewrite !list_lookup_fmap, Hl.
  destruct (l !! i) as [p |]; [| reflexivity].
  cbn [fmap option_fmap option_map]. rewrite Hf. reflexivity.
Qed.

Lemma reflectVelocity_mass (n : Vector3.t) (damping : R) (q : SPHParticle.t) :
  SPHParticle.mass (reflectVelocity n damping q) = SPHParticle.mass q.
Proof. unfold reflectVelocity. cbv zeta. case_decide; reflexivity. Qed.

Lemma Obstacle_handleCollision_mass (o : Obstacle.t) (p : SPHParticle.t)
    (damping : R) :
  SPHParticle.mass (Obstacle.handleCollision o p damping) = SPHParticle.mass p.
Proof.
  destruct o as [| s | b]; [reflexivity | |].
  - cbn [Obstacle.handleCollision].
    rewrite SphereObstacle_handleCollision_unfold.
    case_decide; [| reflexivity]. rewrite reflectVelocity_mass. reflexivity.
  - cbn [Obstacle.handleCollision].
    destruct (BoxObstacle.inside b (SPHParticle.position p)) eqn:Hin.
    + destruct (BoxObstacle_handleCollision_selected b p damping Hin)
        as (f & _ & _ & ->).
      rewrite reflectVelocity_mass. reflexivity.
    + unfold BoxObstacle.handleCollision. rewrite Hin. reflexivity.
Qed.

Lemma collideWalls_mass (this : SPHSystem.t) (damping : R)
    (p : SPHParticle.t) :
  SPHParticle.mass (SPHSystem.collideWalls this damping p) = SPHParticle.mass p.
Proof.
  unfold SPHSystem.collideWalls. cbv zeta. repeat case_decide; reflexivity.
Qed.

Lemma handleCollisions_masses (this : SPHSystem.t) :
  SPHParticle.mass <$> SPHSystem.particles (SPHSystem.handleCollisions this)
  = SPHParticle.mass <$> SPHSystem.particles this.
Proof.
  eapply masses_of_pass.
  - intros i. apply handleCollisions_lookup.
  - intros i p. cbv beta.
    generalize (SPHSystem.collideWalls this 0.5 p) (collideWalls_mass this 0.5 p).
    induction (SPHSystem.obstacles this) as [| o os IH]; intros q Hq;
      [exact Hq |].
    cbn [fold_left]. apply IH.
    rewrite Obstacle_handleCollision_mass. exact Hq.
Qed.

(** The integration pass of [update]. *)
Lemma integrate_lookup (ps : list SPHParticle.t) (dt : R) (i : nat) :
  forEachParticle (fun _ _ particle => SPHParticle.update particle dt) ps !! i
  = (fun particle => SPHParticle.update particle dt) <$> ps !! i.
Proof.
  apply (forEachParticle_lookup (fun _ : SPHParticle.t => tt)
           (fun _ _ particle => SPHParticle.update particle dt));
    intros; reflexivity.
Qed.

Lemma update_masses (this : SPHSystem.t) :
  SPHParticle.mass <$> SPHSystem.particles (SPHSystem.update this)
  = SPHParticle.mass <$> SPHSystem.particles this.
Proof.
  unfold SPHSystem.update. cbv zeta.
  rewrite handleCollisions_masses.
  cbn [SPHSystem.particles SPHSystem.set_particles].
  rewrite (masses_of_pass _ _ (fun _ p => SPHParticle.update p _)
             (integrate_lookup _ _)) by reflexivity.
  rewrite (masses_of_pass _ _ _ (computeForces_lookup _)).
  2: { intros i p. exact (f_equal (fun v => v.1.2) (forcesOf_keeps _ _ p)). }
  rewrite computeDensityPressure_masses.
  apply (masses_of_pass _ _ _ (findNeighbors_lookup this)).
  reflexivity.
Qed.

Lemma update_length (this : SPHSystem.t) :
  length (SPHSystem.particles (SPHSystem.update this))
  = length (SPHSystem.particles this).
Proof.
  rewrite <- (length_fmap SPHParticle.mass), update_masses, length_fmap.
  reflexivity.
Qed.

(** X20.  One simulation step conserves the particles and their
    masses: [update] keeps the number of particles, the mass of each,
    the obstacle list and the configuration. *)
Theorem update_conserves_mass (this : SPHSystem.t) :
  SPHParticle.mass <$> SPHSystem.particles (SPHSystem.update this)
    = SPHParticle.mass <$> SPHSystem.particles this /\
  length (SPHSystem.particles (SPHSystem.update this))
    = length (SPHSystem.particles this) /\
  SPHSystem.set_particles (SPHSystem.update this) []
    = SPHSystem.set_particles this [].
Proof.
  split; [apply update_masses |]. split; [apply update_length | reflexivity].
Qed.

(** X21.  In a solver without obstacles whose bounding box is not
    inverted, every particle lies in the bounding box at the end of a
    step, wherever the integration has taken it. *)
Theorem update_within_box (this : SPHSystem.t) (particle : SPHParticle.t) :
  SPHSystem.obstacles this = [] ->
  boxOrdered (SPHSystem.boundingBox this) ->
  particle ∈ SPHSystem.particles (SPHSystem.update this) ->
  withinBox (SPHSystem.boundingBox this) (SPHParticle.position particle).
Proof.
  intros Hobs Hbox Hp.
  apply list_elem_of_lookup_1 in Hp. destruct Hp as [i Hi].
  unfold SPHSystem.update in Hi. cbv zeta in Hi.
  rewrite handleCollisions_lookup in Hi.
  cbn [SPHSystem.obstacles SPHSystem.set_particles] in Hi.
  change (SPHSystem.obstacles
            (SPHSystem.computeForces
               (SPHSystem.computeDensityPressure
                  (SPHSystem.findNeighbors this))))
    with (SPHSystem.obstacles this) in Hi.
  rewrite Hobs in Hi. cbn [fold_left] in Hi.
  match type of Hi with _ <$> ?l = _ => destruct l as [p |] end;
    [| discriminate].
  inversion Hi.
  match goal with |- withinBox _ (SPHParticle.position
                                    (SPHSystem.collideWalls ?s _ _)) =>
    apply (collideWalls_within s)
  end.
  exact Hbox.
Qed.

Lemma update_within_box_witness :
  exists particle,
    SPHSystem.particles (SPHSystem.update solverWithParticleBeyondWall)
      !! 0%nat = Some particle /\
    withinBox (SPHSystem.boundingBox solverWithParticleBeyondWall)
      (SPHParticle.position particle).
Proof.
  assert (Hl : is_Some
            (SPHSystem.particles (SPHSystem.update solverWithParticleBeyondWall)
               !! 0%nat)).
  { apply lookup_lt_is_Some.
    rewrite update_length. simpl. lia. }
  destruct Hl as [p Hp]. exists p. split; [exact Hp |].
  apply (update_within_box solverWithParticleBeyondWall).
  - reflexivity.
  - exact defaultSolver_boxOrdered.
  - eapply list_elem_of_lookup_2, Hp.
Defined.
